(** * Workbench glue: MCP connection state, configuration-variable
      resolution with interaction, and the prompt-files locator.

    A shallow embedding of
    - [src/vs/workbench/contrib/mcp/common/mcpTypes.ts]
      (namespace [McpConnectionState]),
    - the [BaseConfigurationResolverService] class
      (workbench/services/configurationResolver/browser), and
    - the behaviour that the [PromptFilesLocator] test-suite pins down. *)

From Stdlib Require Import ZArith Ascii String DecimalString List Bool Lia.
From stdpp Require Import base option list strings gmap.

Local Open Scope string_scope.

(** ** nls.localize *)

(** Modelled from the spec: [localize] (nls.ts) is not among the sources.
    It is the default (English) rendering of
    [localize(key, message, ...args)]: every placeholder [{n}] of the
    message is replaced by the [n]-th argument; a placeholder without
    argument is left as it is. *)
Module Nls.

Definition is_digit (c : ascii) : bool :=
  let n := nat_of_ascii c in (Nat.leb 48 n && Nat.leb n 57)%bool.

Definition digit_value (c : ascii) : nat := (nat_of_ascii c - 48)%nat.

Definition index_of_digits (ds : list ascii) : nat :=
  fold_left (fun acc c => (10 * acc + digit_value c)%nat) ds 0%nat.

Definition string_of_chars (cs : list ascii) : string :=
  fold_right String EmptyString cs.

(** [pending] holds the digits read since an opening brace, if any. *)
Fixpoint format_from (pending : option (list ascii)) (message : string)
    (args : list string) : string :=
  match message with
  | EmptyString =>
      match pending with
      | None => EmptyString
      | Some ds => String "{" (string_of_chars ds)
      end
  | String c rest =>
      match pending with
      | None =>
          if Ascii.eqb c "{" then format_from (Some []) rest args
          else String c (format_from None rest args)
      | Some ds =>
          if is_digit c then format_from (Some (ds ++ [c])%list) rest args
          else if (Ascii.eqb c "}" && negb (Nat.eqb (length ds) 0))%bool then
            match nth_error args (index_of_digits ds) with
            | Some a => a ++ format_from None rest args
            | None =>
                String "{" (string_of_chars ds) ++
                String "}" (format_from None rest args)
            end
          else if Ascii.eqb c "{" then
            String "{" (string_of_chars ds) ++ format_from (Some []) rest args
          else
            String "{" (string_of_chars ds) ++
            String c (format_from None rest args)
      end
  end.

Definition localize (key message : string) (args : list string) : string :=
  format_from None message args.
Global Arguments localize : simpl never.

End Nls.

(** ** mcpTypes.ts: [McpConnectionState] *)

Module McpConnectionState.

(** [const enum Kind { Stopped, Starting, Running, Error }] *)
Inductive Kind : Set := Stopped | Starting | Running | Error.

(** The number a [const enum] member stands for at run time. *)
Definition Kind_value (k : Kind) : Z :=
  match k with
  | Stopped => 0%Z
  | Starting => 1%Z
  | Running => 2%Z
  | Error => 3%Z
  end.

(** Strict equality [===] of two kinds compares their numbers. *)
Definition Kind_eqb (a b : Kind) : bool :=
  (Kind_value a =? Kind_value b)%Z.

(** [type McpConnectionState = Stopped | Starting | Running | Error],
    the last one carrying a [message]. *)
Inductive t : Type :=
| StoppedState
| StartingState
| RunningState
| ErrorState (message : string).

Definition state (s : t) : Kind :=
  match s with
  | StoppedState => Stopped
  | StartingState => Starting
  | RunningState => Running
  | ErrorState _ => Error
  end.

(** [s.message]; only the [Error] member has the field. *)
Definition message (s : t) : option string :=
  match s with
  | ErrorState m => Some m
  | _ => None
  end.

(** [toString]: the [switch] is on the run-time number of [s.state]; the
    [default: assertNever(s)] branch throws, which is [None] here. *)
Definition toString (s : t) : option string :=
  let tag := Kind_value (state s) in
  if (tag =? Kind_value Stopped)%Z then
    Some (Nls.localize "mcpstate.stopped" "Stopped" [])
  else if (tag =? Kind_value Starting)%Z then
    Some (Nls.localize "mcpstate.starting" "Starting" [])
  else if (tag =? Kind_value Running)%Z then
    Some (Nls.localize "mcpstate.running" "Running" [])
  else if (tag =? Kind_value Error)%Z then
    Some (Nls.localize "mcpstate.error" "Error {0}"
            (match message s with Some m => [m] | None => [] end))
  else None.

(** [canBeStarted = (s: Kind) => s === Kind.Error || s === Kind.Stopped] *)
Definition canBeStarted (s : Kind) : bool :=
  Kind_eqb s Error || Kind_eqb s Stopped.

End McpConnectionState.

(** ** base/common/map.ts: [LRUCache] *)

(** Modelled from the spec: the [LRUCache] class (base/common/map.ts) is
    not among the sources.  It is the cache of last-picked values: a linked
    map from keys to values in order of use, oldest first, that holds at
    most [limit] entries.  [get] and [set] make their key the newest entry,
    [set] then drops the oldest entries beyond the limit, [toJSON] lists the
    entries oldest first, and [fromJSON] clears the map and [set]s every
    entry of its argument in turn. *)
Module LRUCache.

Record t : Type := mk { limit : nat; entries : list (string * string) }.

Definition new (limit : nat) : t := mk limit [].

Definition size (c : t) : nat := length (entries c).

Definition has_key (k : string) (e : string * string) : bool :=
  String.eqb (fst e) k.

Definition peek (c : t) (k : string) : option string :=
  snd <$> List.find (has_key k) (entries c).

Definition without (k : string) (es : list (string * string))
    : list (string * string) :=
  List.filter (fun e => negb (has_key k e)) es.

(** [get] with the default [Touch.AsNew]. *)
Definition get (c : t) (k : string) : option string * t :=
  match peek c k with
  | Some v => (Some v, mk (limit c) (without k (entries c) ++ [(k, v)])%list)
  | None => (None, c)
  end.

Definition trimOld (newSize : nat) (es : list (string * string))
    : list (string * string) :=
  skipn (length es - newSize) es.

Definition checkTrim (c : t) : t :=
  if Nat.ltb (limit c) (size c)
  then mk (limit c) (trimOld (limit c) (entries c))
  else c.

Definition set (c : t) (k v : string) : t :=
  checkTrim (mk (limit c) (without k (entries c) ++ [(k, v)])%list).

Definition toJSON (c : t) : list (string * string) := entries c.

Definition fromJSON (c : t) (data : list (string * string)) : t :=
  fold_left (fun acc e => set acc (fst e) (snd e)) data (mk (limit c) []).

End LRUCache.

(** ** base/common/async.ts: [Queue] *)

(** Modelled from the spec: the [Queue] class (base/common/async.ts), a
    [Limiter] whose degree of parallelism is one, is not among the sources.
    It queues single-flight tasks: [queue] appends a task factory to the
    outstanding ones and [consume]s; [consume] starts outstanding factories,
    first come first served, while fewer than the maximum are running;
    [consumed], called when a started task settles, frees its slot and
    [consume]s again.  The operations return the factories they start. *)
Module Queue.
Section WithTask.
Variable Task : Type.

Record t : Type := mk {
  maxDegreeOfParalellism : nat;
  outstandingPromises : list Task;
  runningPromises : nat
}.

Definition new : t := mk 1 [] 0.

Fixpoint consume_loop (max : nat) (outstanding : list Task) (running : nat)
    : list Task * (list Task * nat) :=
  match outstanding with
  | [] => ([], ([], running))
  | factory :: rest =>
      if Nat.ltb running max then
        let '(started, state) := consume_loop max rest (S running) in
        (factory :: started, state)
      else ([], (outstanding, running))
  end.

Definition consume (q : t) : list Task * t :=
  let '(started, (outstanding, running)) :=
    consume_loop (maxDegreeOfParalellism q)
                 (outstandingPromises q) (runningPromises q) in
  (started, mk (maxDegreeOfParalellism q) outstanding running).

Definition queue (q : t) (factory : Task) : list Task * t :=
  consume (mk (maxDegreeOfParalellism q)
              (outstandingPromises q ++ [factory])%list
              (runningPromises q)).

Definition consumed (q : t) : list Task * t :=
  let q' := mk (maxDegreeOfParalellism q) (outstandingPromises q)
               (runningPromises q - 1) in
  if Nat.ltb 0 (length (outstandingPromises q')) then consume q'
  else ([], q').

(** The queue together with the tasks it has started and that have not
    settled yet: the tasks in flight. *)
Record System : Type := mkSystem { the_queue : t; inFlight : list Task }.

Definition initial : System := mkSystem new [].

(** What can happen to the queue: a caller queues a factory, or the
    [i]-th task in flight settles (resolves or rejects). *)
Inductive Action : Type :=
| Enqueue (factory : Task)
| Settle (i : nat).

Definition remove_nth (i : nat) (l : list Task) : list Task :=
  (firstn i l ++ skipn (S i) l)%list.

Definition act (s : System) (a : Action) : System :=
  match a with
  | Enqueue factory =>
      let '(started, q) := queue (the_queue s) factory in
      mkSystem q (inFlight s ++ started)%list
  | Settle i =>
      if Nat.ltb i (length (inFlight s)) then
        let '(started, q) := consumed (the_queue s) in
        mkSystem q (remove_nth i (inFlight s) ++ started)%list
      else s
  end.

Definition run (actions : list Action) : System :=
  fold_left act actions initial.

(** The queue counts the tasks in flight, and there is at most one. *)
Definition invariant (s : System) : Prop :=
  maxDegreeOfParalellism (the_queue s) = 1
  /\ runningPromises (the_queue s) = length (inFlight s)
  /\ length (inFlight s) <= 1.

End WithTask.

Arguments mk {Task}.
Arguments maxDegreeOfParalellism {Task}.
Arguments outstandingPromises {Task}.
Arguments runningPromises {Task}.
Arguments new {Task}.
Arguments consume {Task}.
Arguments queue {Task}.
Arguments consumed {Task}.
Arguments mkSystem {Task}.
Arguments the_queue {Task}.
Arguments inFlight {Task}.
Arguments initial {Task}.
Arguments Enqueue {Task}.
Arguments Settle {Task}.
Arguments act {Task}.
Arguments run {Task}.
Arguments invariant {Task}.
End Queue.

(** ** The configuration resolver service *)

Module ConfigurationResolver.

Definition LAST_INPUT_STORAGE_KEY : string := "configResolveInputLru".
Definition LAST_INPUT_CACHE_SIZE : nat := 5.

(** *** Data of the host application *)

(** [VariableKind], as far as this class uses it. *)
Inductive VariableKind : Set := Command | Input.

(** What a promise can be rejected with: a [VariableError] of this class,
    or whatever a service of the host throws. *)
Inductive Exception : Type :=
| VariableError (kind : VariableKind) (message : string)
| HostError (message : string).

Inductive Result (A : Type) : Type :=
| Ok (a : A)
| Rejected (e : Exception).
Arguments Ok {A}.
Arguments Rejected {A}.

(** A value that is a string, [null] or [undefined]. *)
Inductive Nullable : Type :=
| JsString (s : string)
| JsNull
| JsUndefined.

Inductive StorageScope : Set := APPLICATION | PROFILE | WORKSPACE.
Inductive StorageTarget : Set := USER | MACHINE.
Inductive WorkbenchState : Set := EMPTY | FOLDER | WORKSPACE_STATE.
Inductive ConfigurationTarget : Set :=
| TARGET_APPLICATION | TARGET_USER | TARGET_USER_LOCAL | TARGET_USER_REMOTE
| TARGET_WORKSPACE | TARGET_WORKSPACE_FOLDER | TARGET_DEFAULT | TARGET_MEMORY.

Record IWorkspaceFolderData : Type := {
  uri : string;
  folder_name : string;
  index : nat
}.

(** A replacement of [ConfigurationResolverExpression]: [${name:arg}].
    The non-null assertions [variable.arg!] of the class are taken at
    their word: the argument is a string. *)
Record Replacement : Type := { name : string; arg : string }.

(** The entries of [variables] in [resolveWithInteraction]. *)
Record Variable_ : Type := {
  var_name : string;
  var_type : string;
  var_arg : string
}.

(** An element of [info.options]: a string or an object with a [value]
    and maybe a [label] ([None]: absent, or not a string). *)
Inductive PickOption : Type :=
| PickOptionString (s : string)
| PickOptionObject (value : option string) (label : option string).

(** The members that a plain object inherits from [Object.prototype]. *)
Definition Object_prototype : list string :=
  [ "constructor"; "__defineGetter__"; "__defineSetter__"; "hasOwnProperty";
    "__lookupGetter__"; "__lookupSetter__"; "isPrototypeOf";
    "propertyIsEnumerable"; "toString"; "valueOf"; "__proto__";
    "toLocaleString" ].

(** What [executeCommand] is called with as command id: a string; or,
    where the class takes the id out of a dictionary, the member of
    [Object.prototype] that the dictionary inherits under that key, which
    is a function or an object and no string. *)
Inductive CommandId : Type :=
| CommandName (commandId : string)
| InheritedMember (key : string).

(** A string is a command id. *)
Coercion CommandName : string >-> CommandId.

(** The values a command can resolve to. *)
Inductive CommandResult : Type :=
| CmdString (s : string)
| CmdUndefined
| CmdNull
| CmdOther.

Record IInputOptions : Type := {
  prompt : option string;
  input_ignoreFocusLost : bool;
  input_value : option string;
  input_password : option bool
}.

Record PickStringItem : Type := {
  item_label : string;
  item_value : string;
  item_description : option string
}.

Record IPickOptions : Type := {
  placeHolder : option string;
  matchOnDetail : bool;
  pick_ignoreFocusLost : bool
}.

(** Workspace storage: one map per scope. *)
Record Storage : Type := {
  application_storage : gmap string string;
  profile_storage : gmap string string;
  workspace_storage : gmap string string
}.

Definition storage_get (st : Storage) (key : string) (scope : StorageScope)
    : option string :=
  match scope with
  | APPLICATION => application_storage st !! key
  | PROFILE => profile_storage st !! key
  | WORKSPACE => workspace_storage st !! key
  end.

Definition storage_store (st : Storage) (key value : string)
    (scope : StorageScope) : Storage :=
  match scope with
  | APPLICATION =>
      {| application_storage := <[key := value]> (application_storage st);
         profile_storage := profile_storage st;
         workspace_storage := workspace_storage st |}
  | PROFILE =>
      {| application_storage := application_storage st;
         profile_storage := <[key := value]> (profile_storage st);
         workspace_storage := workspace_storage st |}
  | WORKSPACE =>
      {| application_storage := application_storage st;
         profile_storage := profile_storage st;
         workspace_storage := <[key := value]> (workspace_storage st) |}
  end.

Section Service.

(** The type [any] of configuration objects and command arguments. *)
Variable any : Type.

(** A configured input of the [inputs] section, as it comes from the
    user's configuration: an attribute that is absent, or not of the
    type the class checks for, is [None]. *)
Record ConfiguredInput : Type := {
  id : string;
  type : string;
  description : option string;
  default : option string;
  password : option bool;
  options : option (list PickOption);
  command : option string;
  args : any
}.

(** The value of a configuration section, with its [inputs]. *)
Record SectionValue : Type := { inputs : option (list ConfiguredInput) }.

(** The result of [configurationService.inspect]. *)
Record InspectResult : Type := {
  userValue : option SectionValue;
  workspaceValue : option SectionValue;
  workspaceFolderValue : option SectionValue;
  userRemoteValue : option SectionValue
}.

(** *** Calls to the host and programs *)

(** The calls the class makes to services of the host, to the method
    [resolveAnyAsync] it inherits, and to its [userInputAccessQueue]. *)
Inductive Call : Type -> Type :=
| ResolveAnyAsync (folder : option IWorkspaceFolderData) (config : any)
    (variables : option (gmap string Nullable)) : Call any
| GetWorkbenchState : Call WorkbenchState
| Inspect (section : string) (resource : option string)
    : Call (option InspectResult)
| GetValue (section : string) (resource : option string)
    : Call (option SectionValue)
| ExecuteCommand (commandId : CommandId) (arg : any) : Call CommandResult
| QuickInput (options : IInputOptions) : Call (option string)
| QuickPick (picks : list PickStringItem) (options : IPickOptions)
    : Call (option PickStringItem)
| StorageGet (key : string) (scope : StorageScope) : Call (option string)
| StorageStore (key value : string) (scope : StorageScope)
    (target : StorageTarget) : Call unit
| Queue_queue {X : Type} (factory : Call X) : Call X.

(** An asynchronous function of the class: it returns, throws, or makes
    a call and goes on with the answer. *)
Inductive Prog (A : Type) : Type :=
| Ret (a : A)
| Throw (e : Exception)
| Vis {X : Type} (c : Call X) (k : X -> Prog A).
Arguments Ret {A}.
Arguments Throw {A}.
Arguments Vis {A X}.

Fixpoint bind {A B : Type} (p : Prog A) (f : A -> Prog B) : Prog B :=
  match p with
  | Ret a => f a
  | Throw e => Throw e
  | Vis c k => Vis c (fun x => bind (k x) f)
  end.

Definition call {X : Type} (c : Call X) : Prog X := Vis c Ret.

Notation "x <- c ;; k" := (bind c (fun x => k))
  (at level 100, c at next level, right associativity).

(** *** What the class takes from the language and its base class *)

(** [ConfigurationResolverExpression.parse(config).unresolved()]: the
    replacements of the configuration that are not resolved yet, in
    their order of appearance. *)
Variable unresolved : any -> list Replacement.

(** [JSON.stringify] and [JSON.parse] on the serialized form of the
    cache, an array of key-value pairs.  [JSON_parse] is [None] where
    [JSON.parse], or [fromJSON] on what it returns, throws. *)
Variable JSON_stringify : list (string * string) -> string.
Variable JSON_parse : string -> option (list (string * string)).

(** Truthiness of an optional string: [undefined] and the empty string
    are falsy. *)
Definition truthy (o : option string) : bool :=
  match o with
  | Some s => negb (String.eqb s EmptyString)
  | None => false
  end.

(** Strict equality of two optional strings. *)
Definition strict_eqb (a b : option string) : bool :=
  match a, b with
  | Some x, Some y => String.eqb x y
  | None, None => true
  | _, _ => false
  end.

(** [o || fallback] on an optional string. *)
Definition or_else (o : option string) (fallback : string) : string :=
  match o with
  | Some s => if String.eqb s EmptyString then fallback else s
  | None => fallback
  end.

(** How a template literal renders a string that may be [undefined]. *)
Definition template (o : option string) : string :=
  match o with
  | Some s => s
  | None => "undefined"
  end.

(** *** [resolveInputs] *)

Definition inputs_of (v : option SectionValue)
    : option (list ConfiguredInput) :=
  match v with
  | Some sv => inputs sv
  | None => None
  end.

Definition is_some {A : Type} (o : option A) : bool :=
  match o with Some _ => true | None => false end.

Definition resolveInputs (folder : option IWorkspaceFolderData)
    (section : option string) (target : option ConfigurationTarget)
    : Prog (option (list ConfiguredInput)) :=
  state <- call GetWorkbenchState ;;
  if match state with EMPTY => true | _ => false end
     || negb (truthy section)
  then Ret None
  else
    let section := template section in
    let overrides := uri <$> folder in
    result <- call (Inspect section overrides) ;;
    if match result with
       | Some r => is_some (userValue r) || is_some (workspaceValue r)
                   || is_some (workspaceFolderValue r)
                   || is_some (userRemoteValue r)
       | None => false
       end
    then
      Ret (match result with
           | Some r =>
               match target with
               | Some TARGET_USER => inputs_of (userValue r)
               | Some TARGET_USER_REMOTE => inputs_of (userRemoteValue r)
               | Some TARGET_WORKSPACE => inputs_of (workspaceValue r)
               | _ => inputs_of (workspaceFolderValue r)
               end
           | None => None
           end)
    else
      valueResult <- call (GetValue section overrides) ;;
      Ret (inputs_of valueResult).

(** *** [readInputLru] and [storeInputLru] *)

Definition readInputLru : Prog LRUCache.t :=
  contents <- call (StorageGet LAST_INPUT_STORAGE_KEY WORKSPACE) ;;
  let lru := LRUCache.new LAST_INPUT_CACHE_SIZE in
  Ret (match contents with
       | Some text =>
           if String.eqb text EmptyString then lru
           else
             match JSON_parse text with
             | Some data => LRUCache.fromJSON lru data
             | None => lru
             end
       | None => lru
       end).

Definition storeInputLru (lru : LRUCache.t) : Prog unit :=
  call (StorageStore LAST_INPUT_STORAGE_KEY
          (JSON_stringify (LRUCache.toJSON lru)) WORKSPACE MACHINE).

(** *** [showUserInput] *)

Definition missingAttribute {A : Type} (variable : string)
    (info : ConfiguredInput) (attrName : string) : Prog A :=
  Throw (VariableError Input
    (Nls.localize "inputVariable.missingAttribute"
       "Input variable '{0}' is of type '{1}' and must include '{2}'."
       [variable; type info; attrName])).

(** An option of a [pickString] input is well formed when it is a
    string or has a string [value]. *)
Definition pickOption_ok (o : PickOption) : bool :=
  match o with
  | PickOptionString _ => true
  | PickOptionObject value _ => is_some value
  end.

(** [Types.isString(pickOption) ? pickOption : pickOption.value], for
    an option that passed the check above. *)
Definition pickOption_value (o : PickOption) : string :=
  match o with
  | PickOptionString s => s
  | PickOptionObject value _ => template value
  end.

Definition pickOption_label (o : PickOption) : option string :=
  match o with
  | PickOptionString _ => None
  | PickOptionObject _ label => label
  end.

(** One round of the loop that fills [picks]. *)
Definition addPick (info : ConfiguredInput)
    (previousPickedValue : option string)
    (picks : list PickStringItem) (pickOption : PickOption)
    : list PickStringItem :=
  let value := pickOption_value pickOption in
  let label := pickOption_label pickOption in
  let item_label :=
    match label with
    | Some text =>
        if String.eqb text EmptyString then value else text ++ ": " ++ value
    | None => value
    end in
  if strict_eqb (Some value) (default info) then
    {| item_label := item_label; item_value := value;
       item_description :=
         Some (Nls.localize "inputVariable.defaultInputValue"
                 "(Default)" []) |} :: picks
  else if negb (truthy (default info))
          && strict_eqb (Some value) previousPickedValue then
    {| item_label := item_label; item_value := value;
       item_description := None |} :: picks
  else
    (picks ++ [ {| item_label := item_label; item_value := value;
                   item_description := None |} ])%list.

(** [inputInfos.filter(item => item.id === variable).pop()] *)
Definition info_of (variable : string) (inputInfos : list ConfiguredInput)
    : option ConfiguredInput :=
  last (List.filter (fun item => String.eqb (id item) variable) inputInfos).

Definition showUserInput (section variable : string)
    (inputInfos : option (list ConfiguredInput)) : Prog Nullable :=
  match inputInfos with
  | None =>
      Throw (VariableError Input
        (Nls.localize "inputVariable.noInputSection"
           "Variable '{0}' must be defined in an '{1}' section of the debug or task configuration."
           [variable; "inputs"]))
  | Some inputInfos =>
      match info_of variable inputInfos with
      | Some info =>
          lru <- readInputLru ;;
          let defaultValueKey := section ++ "." ++ variable in
          let '(previousPickedValue, defaultValueMap) :=
            LRUCache.get lru defaultValueKey in
          if String.eqb (type info) "promptString" then
            if negb (is_some (description info)) then
              missingAttribute variable info "description"
            else
              let value :=
                if truthy (default info) then default info
                else previousPickedValue in
              let password :=
                match password info with
                | Some true => Some true
                | _ => None
                end in
              let inputOptions :=
                {| prompt := description info;
                   input_ignoreFocusLost := true;
                   input_value := value;
                   input_password := password |} in
              resolvedInput <- call (Queue_queue (QuickInput inputOptions)) ;;
              match resolvedInput with
              | Some text =>
                  _ <- storeInputLru
                         (LRUCache.set defaultValueMap defaultValueKey text) ;;
                  Ret (JsString text)
              | None => Ret JsUndefined
              end
          else if String.eqb (type info) "pickString" then
            if negb (is_some (description info)) then
              missingAttribute variable info "description"
            else
              match options info with
              | None => missingAttribute variable info "options"
              | Some pickOptions =>
                  if negb (forallb pickOption_ok pickOptions) then
                    missingAttribute variable info "value"
                  else
                    let picks :=
                      fold_left (addPick info previousPickedValue)
                                pickOptions [] in
                    let pickOptions :=
                      {| placeHolder := description info;
                         matchOnDetail := true;
                         pick_ignoreFocusLost := true |} in
                    resolvedInput <-
                      call (Queue_queue (QuickPick picks pickOptions)) ;;
                    match resolvedInput with
                    | Some item =>
                        let value := item_value item in
                        _ <- storeInputLru
                               (LRUCache.set defaultValueMap
                                             defaultValueKey value) ;;
                        Ret (JsString value)
                    | None => Ret JsUndefined
                    end
              end
          else if String.eqb (type info) "command" then
            match command info with
            | None => missingAttribute variable info "command"
            | Some commandId =>
                result <-
                  call (Queue_queue (ExecuteCommand commandId (args info))) ;;
                match result with
                | CmdString text => Ret (JsString text)
                | CmdUndefined => Ret JsUndefined
                | CmdNull => Ret JsNull
                | CmdOther =>
                    Throw (VariableError Input
                      (Nls.localize "inputVariable.command.noStringType"
                         "Cannot substitute input variable '{0}' because command '{1}' did not return a result of type string."
                         [variable; commandId]))
                end
            end
          else
            Throw (VariableError Input
              (Nls.localize "inputVariable.unknownType"
                 "Input variable '{0}' can only be of type 'promptString', 'pickString', or 'command'."
                 [variable]))
      | None =>
          Throw (VariableError Input
            (Nls.localize "inputVariable.undefinedVariable"
               "Undefined input variable '{0}' encountered. Remove or define '{0}' to continue."
               [variable]))
      end
  end.

(** *** [resolveWithInteraction] *)

Definition is_input_or_command (replacement : Replacement) : bool :=
  String.eqb (name replacement) "input"
  || String.eqb (name replacement) "command".

(** The first loop: the input and command variables, in their order of
    appearance. *)
Definition collectVariables (replacements : list Replacement)
    : list Variable_ :=
  List.map (fun replacement =>
              {| var_name := name replacement;
                 var_type := name replacement;
                 var_arg := arg replacement |})
           (List.filter is_input_or_command replacements).

(** What [object[key]] gives on an [IStringDictionary<string>], a plain
    object: its own property of that name, or else the member that it
    inherits from [Object.prototype], or else [undefined]. *)
Inductive Property : Type :=
| OwnProperty (value : string)
| Inherited (key : string)
| NoProperty.

Definition property_of (object : gmap string string) (key : string)
    : Property :=
  match object !! key with
  | Some value => OwnProperty value
  | None =>
      if existsb (String.eqb key) Object_prototype then Inherited key
      else NoProperty
  end.

(** [(variableToCommandMap ? variableToCommandMap[arg] : undefined) || arg]:
    an own property that is the empty string is falsy, an inherited member
    is truthy. *)
Definition commandId_of (variableToCommandMap : option (gmap string string))
    (arg : string) : CommandId :=
  let mapped :=
    match variableToCommandMap with
    | Some object => property_of object arg
    | None => NoProperty
    end in
  match mapped with
  | OwnProperty value => CommandName (or_else (Some value) arg)
  | Inherited key => InheritedMember key
  | NoProperty => CommandName arg
  end.

(** Modelled from the spec: [localize] (nls.ts) is not among the sources.
    It puts an argument that is a string in its placeholder, and leaves
    the placeholder of an argument that is a function or an object as it
    is. *)
Definition localize_arguments (commandId : CommandId) : list string :=
  match commandId with
  | CommandName commandId => [commandId]
  | InheritedMember _ => []
  end.

(** The body of the second loop, up to the test for cancellation: the
    value of [result] for one variable. *)
Definition resolveVariable (folder : option IWorkspaceFolderData)
    (config : any) (section : option string)
    (variableToCommandMap : option (gmap string string))
    (target : option ConfigurationTarget) (variable : Variable_)
    : Prog Nullable :=
  if String.eqb (var_type variable) "command" then
    let commandId := commandId_of variableToCommandMap (var_arg variable) in
    result <- call (ExecuteCommand commandId config) ;;
    match result with
    | CmdString text => Ret (JsString text)
    | CmdUndefined => Ret JsUndefined
    | CmdNull => Ret JsNull
    | CmdOther =>
        Throw (VariableError Command
          (Nls.localize "commandVariable.noStringType"
             "Cannot substitute command variable '{0}' because command did not return a result of type string."
             (localize_arguments commandId)))
    end
  else if String.eqb (var_type variable) "input" then
    inputInfos <- resolveInputs folder section target ;;
    showUserInput (template section) (var_arg variable) inputInfos
  else Ret JsUndefined.

Definition variableKey (variable : Variable_) : string :=
  (if String.eqb (var_type variable) "command" then "command:"
   else "input:") ++ var_arg variable.

(** The second loop, from a given state of [resolvedVariables]. *)
Fixpoint resolveVariables (folder : option IWorkspaceFolderData)
    (config : any) (section : option string)
    (variableToCommandMap : option (gmap string string))
    (target : option ConfigurationTarget) (variables : list Variable_)
    (resolvedVariables : gmap string Nullable)
    : Prog (option (gmap string Nullable)) :=
  match variables with
  | [] => Ret (Some resolvedVariables)
  | variable :: rest =>
      result <- resolveVariable folder config section variableToCommandMap
                                target variable ;;
      match result with
      | JsUndefined => Ret None
      | _ =>
          resolveVariables folder config section variableToCommandMap
            target rest
            (<[variableKey variable := result]> resolvedVariables)
      end
  end.

Definition resolveWithInteraction (folder : option IWorkspaceFolderData)
    (config : any) (section : option string)
    (variableToCommandMap : option (gmap string string))
    (target : option ConfigurationTarget)
    : Prog (option (gmap string Nullable)) :=
  let resolvedVariables : gmap string Nullable := ∅ in
  let variables := collectVariables (unresolved config) in
  if Nat.eqb (length variables) 0 then Ret (Some resolvedVariables)
  else
    resolveVariables folder config section variableToCommandMap target
      variables resolvedVariables.

(** *** [resolveWithInteractionReplace] *)

(** What [resolveWithInteractionReplace] resolves to: [null], or a
    configuration. *)
Inductive Replaced : Type :=
| ReturnNull
| ReturnConfig (config : any).

Definition resolveWithInteractionReplace
    (folder : option IWorkspaceFolderData) (config : any)
    (section : option string) (variables : option (gmap string string))
    (target : option ConfigurationTarget) : Prog Replaced :=
  config <- call (ResolveAnyAsync folder config None) ;;
  resolvedVariables <-
    resolveWithInteraction folder config section variables target ;;
  match resolvedVariables with
  | None => Ret ReturnNull
  | Some resolvedVariables =>
      if Nat.ltb 0 (size resolvedVariables) then
        config' <- call (ResolveAnyAsync folder config
                           (Some resolvedVariables)) ;;
        Ret (ReturnConfig config')
      else Ret (ReturnConfig config)
  end.

(** *** Running a program against the host *)

(** A call that was made, whatever the type of its answer. *)
Record Logged : Type := logged { answer : Type; made : Call answer }.
Arguments logged {answer}.

(** The state of the world: the storage service, and the calls made so
    far, oldest first. *)
Record World : Type := { storage : Storage; log : list Logged }.

(** How the host answers: the user at the quick input and the quick
    pick, the commands, the configuration service, and the method
    [resolveAnyAsync] of the base class.  An answer may depend on all
    calls made before; commands and [resolveAnyAsync] may reject. *)
Record Host : Type := {
  host_resolveAnyAsync :
    list Logged -> option IWorkspaceFolderData -> any ->
    option (gmap string Nullable) -> Result any;
  host_getWorkbenchState : list Logged -> WorkbenchState;
  host_inspect :
    list Logged -> string -> option string -> option InspectResult;
  host_getValue :
    list Logged -> string -> option string -> option SectionValue;
  host_executeCommand :
    list Logged -> CommandId -> any -> Result CommandResult;
  host_input : list Logged -> IInputOptions -> option string;
  host_pick :
    list Logged -> list PickStringItem -> IPickOptions ->
    option PickStringItem
}.

(** The answer to a call, and the storage after it.  A factory given to
    the queue runs when no other is running, which is at once when one
    resolution runs at a time. *)
Fixpoint perform {X : Type} (host : Host) (w : World) (c : Call X)
    : Result X * Storage :=
  match c in Call X return Result X * Storage with
  | ResolveAnyAsync folder config variables =>
      (host_resolveAnyAsync host (log w) folder config variables, storage w)
  | GetWorkbenchState => (Ok (host_getWorkbenchState host (log w)), storage w)
  | Inspect section resource =>
      (Ok (host_inspect host (log w) section resource), storage w)
  | GetValue section resource =>
      (Ok (host_getValue host (log w) section resource), storage w)
  | ExecuteCommand commandId arg =>
      (host_executeCommand host (log w) commandId arg, storage w)
  | QuickInput options => (Ok (host_input host (log w) options), storage w)
  | QuickPick picks options =>
      (Ok (host_pick host (log w) picks options), storage w)
  | StorageGet key scope => (Ok (storage_get (storage w) key scope), storage w)
  | StorageStore key value scope _ =>
      (Ok tt, storage_store (storage w) key value scope)
  | Queue_queue factory => perform host w factory
  end.

Fixpoint run {A : Type} (host : Host) (p : Prog A) (w : World)
    : Result A * World :=
  match p with
  | Ret a => (Ok a, w)
  | Throw e => (Rejected e, w)
  | Vis c k =>
      let '(r, st) := perform host w c in
      let w' := {| storage := st; log := (log w ++ [logged c])%list |} in
      match r with
      | Ok x => run host (k x) w'
      | Rejected e => (Rejected e, w')
      end
  end.

(** *** The order of the interaction, as it is described *)

(** What [resolveWithInteraction] is described to do, written out on the
    replacements themselves, to compare the loops of the class with.  The
    [${input:...}] and [${command:...}] replacements are resolved one after
    the other in their order of appearance, and the other replacements are
    passed over: a command is executed with the configuration, an input
    is shown to the user with the inputs of the section.  A value is put
    in the map under [command:arg] or [input:arg] before the next
    replacement is looked at; [undefined] ends the interaction without a
    map, a rejection ends it with the rejection. *)
Fixpoint in_order_of_appearance (host : Host)
    (folder : option IWorkspaceFolderData) (config : any)
    (section : option string)
    (variableToCommandMap : option (gmap string string))
    (target : option ConfigurationTarget) (replacements : list Replacement)
    (resolvedVariables : gmap string Nullable) (w : World)
    : Result (option (gmap string Nullable)) * World :=
  match replacements with
  | [] => (Ok (Some resolvedVariables), w)
  | replacement :: rest =>
      if String.eqb (name replacement) "command" then
        let commandId :=
          commandId_of variableToCommandMap (arg replacement) in
        let key := "command:" ++ arg replacement in
        let w' :=
          {| storage := storage w;
             log := (log w ++ [logged (ExecuteCommand commandId config)])%list
          |} in
        match host_executeCommand host (log w) commandId config with
        | Ok (CmdString text) =>
            in_order_of_appearance host folder config section
              variableToCommandMap target rest
              (<[key := JsString text]> resolvedVariables) w'
        | Ok CmdNull =>
            in_order_of_appearance host folder config section
              variableToCommandMap target rest
              (<[key := JsNull]> resolvedVariables) w'
        | Ok CmdUndefined => (Ok None, w')
        | Ok CmdOther =>
            (Rejected
               (VariableError Command
                  (Nls.localize "commandVariable.noStringType"
                     "Cannot substitute command variable '{0}' because command did not return a result of type string."
                     (localize_arguments commandId))), w')
        | Rejected e => (Rejected e, w')
        end
      else if String.eqb (name replacement) "input" then
        let key := "input:" ++ arg replacement in
        match run host
                (inputInfos <- resolveInputs folder section target ;;
                 showUserInput (template section) (arg replacement)
                   inputInfos) w with
        | (Ok JsUndefined, w') => (Ok None, w')
        | (Ok value, w') =>
            in_order_of_appearance host folder config section
              variableToCommandMap target rest
              (<[key := value]> resolvedVariables) w'
        | (Rejected e, w') => (Rejected e, w')
        end
      else
        in_order_of_appearance host folder config section
          variableToCommandMap target rest resolvedVariables w
  end.

(** *** Prompts and the queue *)

(** The interactive calls: the quick input, the quick pick, and the
    execution of a command. *)
Definition is_prompt {X : Type} (c : Call X) : bool :=
  match c with
  | QuickInput _ | QuickPick _ _ | ExecuteCommand _ _ => true
  | _ => false
  end.

(** A call that is a prompt is not made directly. *)
Definition not_a_bare_prompt {X : Type} (c : Call X) : Prop :=
  is_prompt c = false.

(** Every call a program can make, on every path through it, has the
    property [P]. *)
Fixpoint every_call (P : forall X : Type, Call X -> Prop) {A : Type}
    (p : Prog A) : Prop :=
  match p with
  | Ret _ => True
  | Throw _ => True
  | Vis c k => P _ c /\ forall x, every_call P (k x)
  end.

(** *** Resolutions that run at the same time *)

(** A call of [showUserInput] on its way: it runs, or it waits for the
    factory it gave to the queue (as an outstanding one, or in flight), or
    it is settled. *)
Inductive Thread (A : Type) : Type :=
| Running (p : Prog A)
| Waiting {X : Type} (factory : Call X) (k : X -> Prog A)
| Finished (r : Result A).
Arguments Running {A}.
Arguments Waiting {A X}.
Arguments Finished {A}.

(** The calls under way, the [userInputAccessQueue] they share, whose tasks
    are numbered by the call that queued them, and the world. *)
Record Pool (A : Type) : Type := {
  threads : list (Thread A);
  userInputAccessQueue : Queue.System nat;
  pool_world : World
}.
Arguments threads {A}.
Arguments userInputAccessQueue {A}.
Arguments pool_world {A}.

(** What happens next: the [i]-th call goes on by one step, or the [j]-th
    task in flight is answered and settles. *)
Inductive Turn : Type :=
| Advance (i : nat)
| Answer (j : nat).

Definition queued {X : Type} (c : Call X) : option (Call X) :=
  match c in Call X return option (Call X) with
  | Queue_queue factory => Some factory
  | _ => None
  end.

Definition continue {A X : Type} (r : Result X) (k : X -> Prog A)
    : Thread A :=
  match r with
  | Ok x => Running (k x)
  | Rejected e => Finished (Rejected e)
  end.

Definition advance {A : Type} (host : Host) (pool : Pool A) (i : nat)
    : Pool A :=
  match threads pool !! i with
  | Some (Running (Ret a)) =>
      {| threads := <[i := Finished (Ok a)]> (threads pool);
         userInputAccessQueue := userInputAccessQueue pool;
         pool_world := pool_world pool |}
  | Some (Running (Throw e)) =>
      {| threads := <[i := Finished (Rejected e)]> (threads pool);
         userInputAccessQueue := userInputAccessQueue pool;
         pool_world := pool_world pool |}
  | Some (Running (Vis c k)) =>
      match queued c with
      | Some factory =>
          {| threads := <[i := Waiting factory k]> (threads pool);
             userInputAccessQueue :=
               Queue.act (userInputAccessQueue pool) (Queue.Enqueue i);
             pool_world := pool_world pool |}
      | None =>
          let '(r, st) := perform host (pool_world pool) c in
          {| threads := <[i := continue r k]> (threads pool);
             userInputAccessQueue := userInputAccessQueue pool;
             pool_world :=
               {| storage := st;
                  log := (log (pool_world pool) ++ [logged c])%list |} |}
      end
  | _ => pool
  end.

Definition settle {A : Type} (host : Host) (pool : Pool A) (j : nat)
    : Pool A :=
  match Queue.inFlight (userInputAccessQueue pool) !! j with
  | Some i =>
      match threads pool !! i with
      | Some (Waiting factory k) =>
          let '(r, st) := perform host (pool_world pool) factory in
          {| threads := <[i := continue r k]> (threads pool);
             userInputAccessQueue :=
               Queue.act (userInputAccessQueue pool) (Queue.Settle j);
             pool_world :=
               {| storage := st;
                  log := (log (pool_world pool)
                          ++ [logged (Queue_queue factory)])%list |} |}
      | _ => pool
      end
  | None => pool
  end.

Definition turn {A : Type} (host : Host) (pool : Pool A) (t : Turn)
    : Pool A :=
  match t with
  | Advance i => advance host pool i
  | Answer j => settle host pool j
  end.

(** The calls of [showUserInput] for the given sections, variables and
    inputs, all started in the world [w]. *)
Definition resolutions
    (calls : list (string * string * option (list ConfiguredInput)))
    (w : World) : Pool Nullable :=
  {| threads :=
       List.map (fun r => Running (showUserInput r.1.1 r.1.2 r.2)) calls;
     userInputAccessQueue := Queue.initial;
     pool_world := w |}.

(** A call under way makes no prompt directly, now or later. *)
Definition keeps_to_the_queue {A : Type} (t : Thread A) : Prop :=
  match t with
  | Running p => every_call (@not_a_bare_prompt) p
  | Waiting _ k => forall x, every_call (@not_a_bare_prompt) (k x)
  | Finished _ => True
  end.

(** What holds of the calls under way, started in the world [w]: they keep
    to the queue, the queue counts its tasks in flight, of which there is
    at most one, and no call made since [w] is a prompt outside the
    queue. *)
Definition pool_invariant {A : Type} (w : World) (pool : Pool A) : Prop :=
  Forall keeps_to_the_queue (threads pool)
  /\ Queue.invariant (userInputAccessQueue pool)
  /\ exists new,
       log (pool_world pool) = (log w ++ new)%list
       /\ Forall (fun entry => is_prompt (made entry) = false) new.

(** Every value a program can return has the property [R]. *)
Fixpoint every_return {A : Type} (R : A -> Prop) (p : Prog A) : Prop :=
  match p with
  | Ret a => R a
  | Throw _ => True
  | Vis _ k => forall x, every_return R (k x)
  end.

(** *** The persisted cache *)

(** The workspace storage holds, under the key of the last inputs, the
    serialized form of at most [LAST_INPUT_CACHE_SIZE] entries. *)
Definition persisted_bounded (st : Storage) : Prop :=
  exists data : list (string * string),
    storage_get st LAST_INPUT_STORAGE_KEY WORKSPACE
    = Some (JSON_stringify data)
    /\ length data <= LAST_INPUT_CACHE_SIZE.

(** A call that stores, stores such a cache under that key. *)
Fixpoint stores_bounded_cache {X : Type} (c : Call X) : Prop :=
  match c with
  | StorageStore key value scope _ =>
      key = LAST_INPUT_STORAGE_KEY /\ scope = WORKSPACE
      /\ exists data : list (string * string),
           value = JSON_stringify data
           /\ length data <= LAST_INPUT_CACHE_SIZE
  | Queue_queue factory => stores_bounded_cache factory
  | _ => True
  end.

(** *** Inputs that cannot be prompted for *)

(** A configured input misses an attribute its type requires (the
    [description] of a [promptString] or a [pickString], the [options]
    of a [pickString] or the [value] of one of them, the [command] of a
    [command]), or its type is none of the three. *)
Definition misses_attribute (info : ConfiguredInput) : bool :=
  if String.eqb (type info) "promptString" then
    negb (is_some (description info))
  else if String.eqb (type info) "pickString" then
    negb (is_some (description info))
    || match options info with
       | Some pickOptions => negb (forallb pickOption_ok pickOptions)
       | None => true
       end
  else if String.eqb (type info) "command" then
    negb (is_some (command info))
  else true.

(** There is no [inputs] section, or no input of it has the id of the
    variable, or the input that is taken for the variable misses an
    attribute or has an unknown type. *)
Definition cannot_prompt (variable : string)
    (inputInfos : option (list ConfiguredInput)) : bool :=
  match inputInfos with
  | None => true
  | Some inputInfos =>
      negb (existsb (fun item => String.eqb (id item) variable) inputInfos)
      || match info_of variable inputInfos with
         | Some info => misses_attribute info
         | None => true
         end
  end.

End Service.

Arguments Running {any A}.
Arguments Waiting {any A X}.
Arguments Finished {any A}.
Arguments threads {any A}.
Arguments userInputAccessQueue {any A}.
Arguments pool_world {any A}.
Arguments queued {any X}.
Arguments continue {any A X}.
Arguments advance {any A}.
Arguments settle {any A}.
Arguments turn {any A}.
Arguments resolutions {any}.
Arguments keeps_to_the_queue {any A}.
Arguments pool_invariant {any A}.
Arguments every_return {any A}.
Arguments stores_bounded_cache {any} JSON_stringify {X}.
Arguments info_of {any}.
Arguments misses_attribute {any}.
Arguments cannot_prompt {any}.
Arguments Ret {any A}.
Arguments Throw {any A}.
Arguments Vis {any A X}.
Arguments bind {any A B}.
Arguments call {any X}.
Arguments id {any}.
Arguments type {any}.
Arguments description {any}.
Arguments default {any}.
Arguments password {any}.
Arguments options {any}.
Arguments command {any}.
Arguments args {any}.
Arguments inputs {any}.
Arguments userValue {any}.
Arguments workspaceValue {any}.
Arguments workspaceFolderValue {any}.
Arguments userRemoteValue {any}.
Arguments host_resolveAnyAsync {any}.
Arguments host_getWorkbenchState {any}.
Arguments host_inspect {any}.
Arguments host_getValue {any}.
Arguments host_executeCommand {any}.
Arguments host_input {any}.
Arguments host_pick {any}.
Arguments inputs_of {any}.
Arguments ResolveAnyAsync {any}.
Arguments ExecuteCommand {any}.
Arguments GetWorkbenchState {any}.
Arguments Inspect {any}.
Arguments GetValue {any}.
Arguments QuickInput {any}.
Arguments QuickPick {any}.
Arguments StorageGet {any}.
Arguments StorageStore {any}.
Arguments Queue_queue {any X}.
Arguments logged {any answer}.
Arguments made {any}.
Arguments storage {any}.
Arguments log {any}.
Arguments Build_World {any}.
Arguments perform {any X}.
Arguments run {any A}.
Arguments is_prompt {any X}.
Arguments not_a_bare_prompt {any X}.
Arguments every_call {any} P {A}.
Arguments ReturnNull {any}.
Arguments ReturnConfig {any}.
Arguments resolveInputs {any}.
Arguments readInputLru {any}.
Arguments storeInputLru {any}.
Arguments showUserInput {any}.
Arguments addPick {any}.
Arguments missingAttribute {any A}.
Arguments resolveVariable {any}.
Arguments resolveVariables {any}.
Arguments resolveWithInteraction {any}.
Arguments resolveWithInteractionReplace {any}.
Arguments in_order_of_appearance {any}.

End ConfigurationResolver.

(** ** The prompt-files locator *)

(** Modelled from the spec: the [PromptFilesLocator] class
    (promptSyntax/utils/promptFilesLocator.ts), the [PromptsConfig] it
    reads and the glob matcher it calls are not among the sources; only the
    test-suite of the locator is.  The spec calls it a glob-based locator
    for prompt files across workspace folders.  What follows is that, with
    the details the assertions of the test-suite fix: the locations are the
    keys of the configuration object that are mapped to [true], after the
    default location [.github/prompts] unless that one is mapped to
    [false]; a relative location is taken in every workspace folder;
    [listFiles] gives the prompt files that lie in the located folders, and
    [findAllMatchingPromptFiles] the prompt files that match a location as
    a glob pattern or lie below it; a prompt file is a file whose name ends
    in [.prompt.md]; no file is given twice. *)
Module PromptFilesLocator.

Definition PROMPT_FILE_EXTENSION : string := ".prompt.md".
Definition DEFAULT_SOURCE_FOLDER : string := ".github/prompts".

(** A path is the list of its segments, from the root. *)
Definition Path : Type := list string.

(** The segments of a path written with slashes. *)
Fixpoint segments_from (current : string) (s : string) : list string :=
  let flush := if String.eqb current EmptyString then [] else [current] in
  match s with
  | EmptyString => flush
  | String c rest =>
      if Ascii.eqb c "/" then (flush ++ segments_from EmptyString rest)%list
      else segments_from (current ++ String c EmptyString) rest
  end.

Definition segments (s : string) : Path := segments_from EmptyString s.

Definition isAbsolute (s : string) : bool :=
  match s with
  | String c _ => Ascii.eqb c "/"
  | EmptyString => false
  end.

(** *** The mocked file system of the tests *)

Local Set Warnings "-register-all".

Inductive IMockNode : Type :=
| MockFile (name contents : string)
| MockFolder (name : string) (children : list IMockNode).

(** The files below a node, in the order they were created. *)
Fixpoint files_below (parent : Path) (node : IMockNode) : list Path :=
  match node with
  | MockFile name _ => [(parent ++ segments name)%list]
  | MockFolder name children =>
      flat_map (files_below (parent ++ segments name)%list) children
  end.

Definition files (filesystem : list IMockNode) : list Path :=
  flat_map (files_below []) filesystem.

(** *** The configuration *)

(** The value of the locations setting. *)
Inductive ConfigValue : Type :=
| Undefined
| Null
| StringValue (s : string)
| ArrayValue (items : list string)
| ObjectValue (entries : list (string * bool)).

(** The value of a key of a configuration object: the last entry for the
    key. *)
Definition lookup_entry (key : string) (entries : list (string * bool))
    : option bool :=
  snd <$> last (List.filter (fun e => String.eqb (fst e) key) entries).

Definition promptSourceFolders (config : ConfigValue) : list string :=
  match config with
  | ObjectValue entries =>
      ((match lookup_entry DEFAULT_SOURCE_FOLDER entries with
        | Some false => []
        | _ => [DEFAULT_SOURCE_FOLDER]
        end)
       ++ List.map fst
            (List.filter
               (fun e => snd e && negb (String.eqb (fst e) DEFAULT_SOURCE_FOLDER))
               entries))%list
  | _ => []
  end.

(** A location in the workspace: an absolute one as it is, a relative
    one in every workspace folder. *)
Definition toAbsoluteLocations (workspaceFolders : list string)
    (location : string) : list Path :=
  if isAbsolute location then [segments location]
  else List.map (fun folder => (segments folder ++ segments location)%list)
                workspaceFolders.

(** *** Prompt files and glob patterns *)

Fixpoint ends_with (suffix s : string) : bool :=
  String.eqb s suffix
  || match s with
     | String _ rest => ends_with suffix rest
     | EmptyString => false
     end.

Definition isPromptFile (file : Path) : bool :=
  match last file with
  | Some name => ends_with PROMPT_FILE_EXTENSION name
  | None => false
  end.

(** A segment of a pattern against a name: a star stands for any
    characters. *)
Fixpoint match_name (pattern : string) : string -> bool :=
  match pattern with
  | EmptyString => fun name => String.eqb name EmptyString
  | String c pattern' =>
      if Ascii.eqb c "*" then
        fix star (name : string) : bool :=
          match_name pattern' name
          || match name with
             | String _ name' => star name'
             | EmptyString => false
             end
      else
        fun name =>
          match name with
          | String d name' => Ascii.eqb c d && match_name pattern' name'
          | EmptyString => false
          end
  end.

(** A pattern against a path: two stars stand for any segments. *)
Fixpoint match_path (pattern : Path) : Path -> bool :=
  match pattern with
  | [] => fun path => match path with [] => true | _ => false end
  | p :: pattern' =>
      if String.eqb p "**" then
        fix globstar (path : Path) : bool :=
          match_path pattern' path
          || match path with
             | _ :: path' => globstar path'
             | [] => false
             end
      else
        fun path =>
          match path with
          | name :: path' => match_name p name && match_path pattern' path'
          | [] => false
          end
  end.

Definition isGlob (location : Path) : bool :=
  existsb (fun segment =>
             existsb (fun c => Ascii.eqb c "*") (list_ascii_of_string segment))
          location.

Fixpoint is_prefix (folder file : Path) : bool :=
  match folder, file with
  | [], _ => true
  | a :: folder', b :: file' => String.eqb a b && is_prefix folder' file'
  | _ :: _, [] => false
  end.

Definition path_eqb (a b : Path) : bool :=
  Nat.eqb (length a) (length b) && is_prefix a b.

(** *** The two searches *)

Definition locations (config : ConfigValue) (workspaceFolders : list string)
    : list Path :=
  flat_map (toAbsoluteLocations workspaceFolders) (promptSourceFolders config).

(** The prompt files that lie in a folder. *)
Definition promptFilesIn (filesystem : list IMockNode) (folder : Path)
    : list Path :=
  List.filter (fun file => path_eqb (removelast file) folder && isPromptFile file)
              (files filesystem).

(** The prompt files that match a location, or lie below it when it is
    no pattern. *)
Definition promptFilesMatching (filesystem : list IMockNode) (location : Path)
    : list Path :=
  List.filter
    (fun file =>
       (if isGlob location then match_path location file
        else is_prefix location file)
       && isPromptFile file)
    (files filesystem).

Definition listFiles (config : ConfigValue) (workspaceFolders : list string)
    (filesystem : list IMockNode) : list Path :=
  remove_dups (flat_map (promptFilesIn filesystem)
                        (locations config workspaceFolders)).

Definition findAllMatchingPromptFiles (config : ConfigValue)
    (workspaceFolders : list string) (filesystem : list IMockNode)
    : list Path :=
  remove_dups (flat_map (promptFilesMatching filesystem)
                        (locations config workspaceFolders)).

(** [createURI(path)], as a path. *)
Definition createURI (path : string) : Path := segments path.

End PromptFilesLocator.

(** ** The context the service gives its base class *)

(** The callbacks that the constructor of the service passes to its base
    class, as functions of what the workbench services hold when they are
    called: the folders of the workspace, and the active text editor
    control. *)
Module ResolverContext.
Import ConfigurationResolver.

(** [getFolderUri]:
    [folders.filter(f => f.name === folderName).pop()], then its [uri]. *)
Definition getFolderUri (folders : list IWorkspaceFolderData)
    (folderName : string) : option string :=
  let folder :=
    last (List.filter (fun f => String.eqb (folder_name f) folderName)
            folders) in
  match folder with
  | Some folder => Some (uri folder)
  | None => None
  end.

(** [getWorkspaceFolderCount] *)
Definition getWorkspaceFolderCount (folders : list IWorkspaceFolderData)
    : nat :=
  length folders.

(** A selection, as far as the callbacks read it: the position of the
    cursor.  Lines and columns are natural numbers. *)
Record Selection : Type := {
  positionLineNumber : N;
  positionColumn : N
}.

(** A text model, with its [getValueInRange]. *)
Record ITextModel : Type := { getValueInRange : Selection -> string }.

(** A code editor: [getModel()] and [getSelection()] may be [null]. *)
Record ICodeEditor : Type := {
  getModel : option ITextModel;
  getSelection : option Selection;
  hasWidgetFocus : bool
}.

(** [editorService.activeTextEditorControl]: a code editor, a diff editor
    with its original and its modified editor, or neither. *)
Inductive EditorControl : Type :=
| CodeEditor (editor : ICodeEditor)
| DiffEditor (original modified : ICodeEditor)
| NoEditor.

(** [String(n)] of a natural number. *)
Definition String_ (n : N) : string :=
  DecimalString.NilZero.string_of_uint (N.to_uint n).

(** [getSelectedText] *)
Definition getSelectedText (activeTextEditorControl : EditorControl)
    : option string :=
  let activeControl :=
    match activeTextEditorControl with
    | CodeEditor editor => Some editor
    | DiffEditor original modified =>
        Some (if hasWidgetFocus original then original else modified)
    | NoEditor => None
    end in
  let activeModel :=
    match activeControl with
    | Some control => getModel control
    | None => None
    end in
  let activeSelection :=
    match activeControl with
    | Some control => getSelection control
    | None => None
    end in
  match activeModel, activeSelection with
  | Some model, Some selection => Some (getValueInRange model selection)
  | _, _ => None
  end.

(** [getLineNumber] *)
Definition getLineNumber (activeTextEditorControl : EditorControl)
    : option string :=
  match activeTextEditorControl with
  | CodeEditor editor =>
      match getSelection editor with
      | Some selection => Some (String_ (positionLineNumber selection))
      | None => None
      end
  | _ => None
  end.

(** [getColumnNumber] *)
Definition getColumnNumber (activeTextEditorControl : EditorControl)
    : option string :=
  match activeTextEditorControl with
  | CodeEditor editor =>
      match getSelection editor with
      | Some selection => Some (String_ (positionColumn selection))
      | None => None
      end
  | _ => None
  end.

End ResolverContext.

(** ** mcpTypes.ts: [McpCollectionDefinition] *)

Module McpCollectionDefinition.

Section Definitions.

(** The types of [serverDefinitions] (an observable of server
    definitions) and of [order] (a number): [equals] reads neither. *)
Variable ServerDefinitions : Type.
Variable Number : Type.

(** [interface McpCollectionDefinition]; [remoteAuthority] is a string or
    [null], [order] is optional. *)
Record t : Type := {
  remoteAuthority : option string;
  id : string;
  label : string;
  serverDefinitions : ServerDefinitions;
  isTrustedByDefault : bool;
  scope : ConfigurationResolver.StorageScope;
  order : option Number
}.

(** [equals] *)
Definition equals (a b : t) : bool :=
  String.eqb (id a) (id b)
  && ConfigurationResolver.strict_eqb (remoteAuthority a) (remoteAuthority b)
  && String.eqb (label a) (label b)
  && Bool.eqb (isTrustedByDefault a) (isTrustedByDefault b).

End Definitions.

Arguments remoteAuthority {ServerDefinitions Number}.
Arguments id {ServerDefinitions Number}.
Arguments label {ServerDefinitions Number}.
Arguments serverDefinitions {ServerDefinitions Number}.
Arguments isTrustedByDefault {ServerDefinitions Number}.
Arguments scope {ServerDefinitions Number}.
Arguments order {ServerDefinitions Number}.
Arguments equals {ServerDefinitions Number}.

End McpCollectionDefinition.

(** * Concrete instances *)

(** ** A JSON codec for the serialized cache *)

(** [JSON.stringify] and [JSON.parse] on arrays of pairs of strings, with
    the escapes of the double quote and of the backslash; no white space.
    It is what the examples below run the class with. *)
Module Json.

Definition dquote : ascii := "034"%char.
Definition backslash : ascii := "092"%char.

Fixpoint escape (s : string) : string :=
  match s with
  | EmptyString => EmptyString
  | String c rest =>
      if Ascii.eqb c dquote || Ascii.eqb c backslash
      then String backslash (String c (escape rest))
      else String c (escape rest)
  end.

Definition quote (s : string) : string :=
  String dquote (escape s ++ String dquote EmptyString).

Definition stringify_pair (e : string * string) : string :=
  "[" ++ quote (fst e) ++ "," ++ quote (snd e) ++ "]".

Fixpoint stringify_pairs (d : list (string * string)) : string :=
  match d with
  | [] => EmptyString
  | [e] => stringify_pair e
  | e :: rest => stringify_pair e ++ "," ++ stringify_pairs rest
  end.

Definition stringify (d : list (string * string)) : string :=
  "[" ++ stringify_pairs d ++ "]".

(** The text of a string literal after its opening quote: its value and
    what follows the closing quote. *)
Fixpoint parse_string_body (s : string) : option (string * string) :=
  match s with
  | EmptyString => None
  | String c rest =>
      if Ascii.eqb c dquote then Some (EmptyString, rest)
      else if Ascii.eqb c backslash then
        match rest with
        | String c' rest' =>
            if Ascii.eqb c' dquote || Ascii.eqb c' backslash then
              match parse_string_body rest' with
              | Some (v, after) => Some (String c' v, after)
              | None => None
              end
            else None
        | EmptyString => None
        end
      else
        match parse_string_body rest with
        | Some (v, after) => Some (String c v, after)
        | None => None
        end
  end.

Definition expect (c : ascii) (s : string) : option string :=
  match s with
  | String c' rest => if Ascii.eqb c c' then Some rest else None
  | EmptyString => None
  end.

Definition parse_pair (s : string) : option ((string * string) * string) :=
  s ← expect "[" s;
  s ← expect dquote s;
  '(k, s) ← parse_string_body s;
  s ← expect "," s;
  s ← expect dquote s;
  '(v, s) ← parse_string_body s;
  s ← expect "]" s;
  Some ((k, v), s).

Fixpoint parse_pairs (fuel : nat) (s : string)
    : option (list (string * string)) :=
  match fuel with
  | O => None
  | S fuel =>
      '(e, s) ← parse_pair s;
      match s with
      | String "]" EmptyString => Some [e]
      | String "," rest => cons e <$> parse_pairs fuel rest
      | _ => None
      end
  end.

Definition parse (s : string) : option (list (string * string)) :=
  match s with
  | String "[" (String "]" EmptyString) => Some []
  | String "[" rest => parse_pairs (String.length rest) rest
  | _ => None
  end.

End Json.

(** ** A host to run the class against *)

Module Examples.
Import ConfigurationResolver.

(** Configurations are strings here; two of them have variables. *)
Definition unresolved (config : string) : list Replacement :=
  if String.eqb config "echo ${input:who} ${command:pickFile} ${input:color}"
  then [ {| name := "input"; arg := "who" |};
         {| name := "command"; arg := "pickFile" |};
         {| name := "input"; arg := "color" |} ]
  else if String.eqb config "echo ${env:HOME} ${input:missing}"
  then [ {| name := "env"; arg := "HOME" |};
         {| name := "input"; arg := "missing" |} ]
  else [].

Definition who (default : option string) : ConfiguredInput string :=
  {| id := "who"; type := "promptString"; description := Some "Your name";
     default := default; password := None; options := None;
     command := None; args := EmptyString |}.

Definition color : ConfiguredInput string :=
  {| id := "color"; type := "pickString"; description := Some "A color";
     default := None; password := None;
     options := Some [ PickOptionString "red";
                       PickOptionObject (Some "green") (Some "Go") ];
     command := None; args := EmptyString |}.

(** How many prompts were made so far. *)
Definition prompts_so_far (l : list (Logged string)) : nat :=
  length (List.filter
            (fun entry =>
               match made entry with
               | Queue_queue _ | ExecuteCommand _ _ => true
               | _ => false
               end) l).

(** A host with a folder open, whose [inputs] section holds the given
    inputs, and whose user gives the [n]-th of the given answers at the
    [n]-th prompt; [None] is a cancelled prompt.  Commands resolve to
    their answer, the quick pick to an item of that value. *)
Definition host (infos : list (ConfiguredInput string))
    (answers : list (option string)) : Host string :=
  let answer l := mjoin (nth_error answers (prompts_so_far l)) in
  {| host_resolveAnyAsync := fun _ _ config _ => Ok config;
     host_getWorkbenchState := fun _ => FOLDER;
     host_inspect := fun _ _ _ =>
       Some {| userValue := None; workspaceValue := None;
               workspaceFolderValue := Some {| inputs := Some infos |};
               userRemoteValue := None |};
     host_getValue := fun _ _ _ => None;
     host_executeCommand := fun l _ _ =>
       Ok (match answer l with
           | Some text => CmdString text
           | None => CmdUndefined
           end);
     host_input := fun l _ => answer l;
     host_pick := fun l picks _ =>
       match answer l with
       | Some text =>
           List.find (fun item => String.eqb (item_value item) text) picks
       | None => None
       end |}.

Definition empty_storage : Storage :=
  {| application_storage := ∅; profile_storage := ∅;
     workspace_storage := ∅ |}.

(** A world whose workspace storage holds the given cache. *)
Definition world (cache : list (string * string)) : World string :=
  {| storage := storage_store empty_storage LAST_INPUT_STORAGE_KEY
                  (Json.stringify cache) WORKSPACE;
     log := [] |}.

Definition fresh : World string := {| storage := empty_storage; log := [] |}.

Definition showUserInput := showUserInput (any := string) Json.stringify Json.parse.
Definition resolveWithInteractionReplace :=
  resolveWithInteractionReplace (any := string) unresolved Json.stringify Json.parse.

(** *** A cancelled command *)

Definition three_variables : string :=
  "echo ${input:who} ${command:pickFile} ${input:color}".

(** The user names themselves, then cancels the command. *)
Definition cancelling_host : Host string :=
  host [who None; color] [Some "me"; None; Some "green"].

Definition who_options (value : option string) : IInputOptions :=
  {| prompt := Some "Your name"; input_ignoreFocusLost := true;
     input_value := value; input_password := None |}.

(** The world after [who] was resolved. *)
Definition after_who : World string :=
  {| storage := storage_store empty_storage LAST_INPUT_STORAGE_KEY
                  (Json.stringify [("tasks.who", "me")]) WORKSPACE;
     log := [ logged (ResolveAnyAsync None three_variables None);
              logged GetWorkbenchState;
              logged (Inspect "tasks" None);
              logged (StorageGet LAST_INPUT_STORAGE_KEY WORKSPACE);
              logged (Queue_queue (QuickInput (who_options None)));
              logged (StorageStore LAST_INPUT_STORAGE_KEY
                        (Json.stringify [("tasks.who", "me")])
                        WORKSPACE MACHINE) ] |}.

(** The world after the command was cancelled: no call follows it. *)
Definition after_cancel : World string :=
  {| storage := storage after_who;
     log := (log after_who
             ++ [logged (ExecuteCommand "pickFile" three_variables)])%list |}.

(** *** A prompt with a cached value *)

(** The user types [new]. *)
Definition typing_host (default : option string) : Host string :=
  host [who default] [Some "new"].

Definition cached : World string := world [("tasks.who", "old")].

(** The world after the prompt with the given initial value was
    answered. *)
Definition after_typing (value : option string) : World string :=
  {| storage := storage_store (storage cached) LAST_INPUT_STORAGE_KEY
                  (Json.stringify [("tasks.who", "new")]) WORKSPACE;
     log := [ logged (StorageGet LAST_INPUT_STORAGE_KEY WORKSPACE);
              logged (Queue_queue (QuickInput (who_options value)));
              logged (StorageStore LAST_INPUT_STORAGE_KEY
                        (Json.stringify [("tasks.who", "new")])
                        WORKSPACE MACHINE) ] |}.

(** *** Two resolutions at the same time *)

Definition two_at_once : Pool string Nullable :=
  resolutions Json.stringify Json.parse
    [ ("tasks", "who", Some [who None; color]);
      ("tasks", "color", Some [who None; color]) ] fresh.

End Examples.

(** ** The fixtures of the locator's test-suite *)

Module LocatorFixtures.
Import PromptFilesLocator.

Definition workspace : list string := ["/Users/legomushroom/repos/vscode"].

(** The file system of the wild card tests. *)
Definition wildcard_filesystem : list IMockNode :=
  [ MockFolder "/Users/legomushroom/repos/vscode"
      [ MockFolder "deps/text"
          [ MockFile "my.prompt.md" "oh hi, bot!";
            MockFolder "nested"
              [ MockFile "specific.prompt.md" "oh hi, bot!";
                MockFile "unspecific1.prompt.md" "oh hi, robot!";
                MockFile "unspecific2.prompt.md" "oh hi, rabot!";
                MockFile "readme.md" "non prompt file" ] ] ] ].

Definition wildcard_settings : list string :=
  [ "**";
    "**/*.prompt.md";
    "**/*.md";
    "**/*";
    "deps/**";
    "deps/**/*.prompt.md";
    "deps/**/*";
    "deps/**/*.md";
    "**/text/**";
    "**/text/**/*";
    "**/text/**/*.md";
    "**/text/**/*.prompt.md";
    "deps/text/**";
    "deps/text/**/*";
    "deps/text/**/*.md";
    "deps/text/**/*.prompt.md" ].

Definition wildcard_expected : list Path :=
  [ createURI "/Users/legomushroom/repos/vscode/deps/text/my.prompt.md";
    createURI "/Users/legomushroom/repos/vscode/deps/text/nested/specific.prompt.md";
    createURI "/Users/legomushroom/repos/vscode/deps/text/nested/unspecific1.prompt.md";
    createURI "/Users/legomushroom/repos/vscode/deps/text/nested/unspecific2.prompt.md" ].

Definition readme : Path :=
  createURI "/Users/legomushroom/repos/vscode/deps/text/nested/readme.md".

(** The file system of the tests of specific patterns. *)
Definition specific_filesystem : list IMockNode :=
  [ MockFolder "/Users/legomushroom/repos/vscode"
      [ MockFolder "deps/text"
          [ MockFile "my.prompt.md" "oh hi, bot!";
            MockFolder "nested"
              [ MockFile "default.prompt.md" "oh hi, bot!";
                MockFile "specific.prompt.md" "oh hi, bot!";
                MockFile "unspecific1.prompt.md" "oh hi, robot!";
                MockFile "unspecific2.prompt.md" "oh hi, rawbot!";
                MockFile "readme.md" "non prompt file" ] ] ] ].

Definition specific_settings : list (list string) :=
  [ ["**/*specific*"];
    ["**/*specific*.prompt.md"];
    ["**/*specific*.md"];
    ["**/specific*"; "**/unspecific1.prompt.md"; "**/unspecific2.prompt.md"];
    ["**/specific.prompt.md"; "**/unspecific*.prompt.md"];
    ["**/nested/specific.prompt.md"; "**/nested/unspecific*.prompt.md"];
    ["**/nested/*specific*"];
    ["**/*spec*.prompt.md"];
    ["**/*spec*"];
    ["**/*spec*.md"];
    ["**/deps/**/*spec*.md"];
    ["**/text/**/*spec*.md"];
    ["deps/text/nested/*spec*"];
    ["deps/text/nested/*specific*"];
    ["deps/**/*specific*"];
    ["deps/**/specific*"; "deps/**/unspecific*.prompt.md"];
    ["deps/**/specific*.md"; "deps/**/unspecific*.md"];
    ["deps/**/specific.prompt.md"; "deps/**/unspecific1.prompt.md"; "deps/**/unspecific2.prompt.md"];
    ["deps/**/specific.prompt.md"; "deps/**/unspecific1*.md"; "deps/**/unspecific2*.md"];
    ["deps/text/**/*specific*"];
    ["deps/text/**/specific*"; "deps/text/**/unspecific*.prompt.md"];
    ["deps/text/**/specific*.md"; "deps/text/**/unspecific*.md"];
    ["deps/text/**/specific.prompt.md"; "deps/text/**/unspecific1.prompt.md"; "deps/text/**/unspecific2.prompt.md"];
    ["deps/text/**/specific.prompt.md"; "deps/text/**/unspecific1*.md"; "deps/text/**/unspecific2*.md"] ].

Definition specific_expected : list Path :=
  [ createURI "/Users/legomushroom/repos/vscode/deps/text/nested/specific.prompt.md";
    createURI "/Users/legomushroom/repos/vscode/deps/text/nested/unspecific1.prompt.md";
    createURI "/Users/legomushroom/repos/vscode/deps/text/nested/unspecific2.prompt.md" ].

(** The absolute settings of the tests are the relative ones in the
    workspace folder. *)
Definition absolute (setting : string) : string :=
  "/Users/legomushroom/repos/vscode/" ++ setting.

Definition enabled (settings : list string) : ConfigValue :=
  ObjectValue (List.map (fun setting => (setting, true)) settings).

(** The configuration and file system of the tests of [listFiles]. *)
Definition core_config : ConfigValue :=
  ObjectValue [ ("/Users/legomushroom/repos/prompts", true);
                ("/tmp/prompts/", true);
                ("/absolute/path/prompts", false);
                (".copilot/prompts", true) ].

Definition disabled_config : ConfigValue :=
  ObjectValue [ ("/Users/legomushroom/repos/prompts", true);
                ("/tmp/prompts/", true);
                ("/absolute/path/prompts", false);
                (".copilot/prompts", true);
                (".github/prompts", false) ].

Definition outside_folders : list IMockNode :=
  [ MockFolder "/Users/legomushroom/repos/prompts"
      [ MockFile "test.prompt.md" "Hello, World!";
        MockFile "refactor-tests.prompt.md" "some file content goes here" ];
    MockFolder "/tmp/prompts"
      [ MockFile "translate.to-rust.prompt.md"
          "some more random file contents" ];
    MockFolder "/absolute/path/prompts"
      [ MockFile "some-prompt-file.prompt.md" "hey hey hey" ] ].

Definition core_filesystem : list IMockNode :=
  (outside_folders ++
   [ MockFolder "/Users/legomushroom/repos/vscode"
       [ MockFolder ".copilot/prompts"
           [ MockFile "default.prompt.md" "oh hi, robot!" ];
         MockFolder ".github/prompts"
           [ MockFile "my.prompt.md" "oh hi, bot!" ] ] ])%list.

Definition disabled_filesystem : list IMockNode :=
  (outside_folders ++
   [ MockFolder "/Users/legomushroom/repos/vscode"
       [ MockFolder ".copilot/prompts"
           [ MockFile "default.prompt.md" "oh hi, robot!" ];
         MockFolder ".github/prompts"
           [ MockFile "my.prompt.md" "oh hi, bot!";
             MockFile "your.prompt.md" "oh hi, bot!" ] ] ])%list.

Definition outside_expected : list Path :=
  [ createURI "/Users/legomushroom/repos/prompts/test.prompt.md";
    createURI "/Users/legomushroom/repos/prompts/refactor-tests.prompt.md";
    createURI "/tmp/prompts/translate.to-rust.prompt.md" ].

Definition core_expected : list Path :=
  (createURI "/Users/legomushroom/repos/vscode/.github/prompts/my.prompt.md"
   :: outside_expected ++
   [ createURI "/Users/legomushroom/repos/vscode/.copilot/prompts/default.prompt.md" ])%list.

Definition disabled_expected : list Path :=
  (outside_expected ++
   [ createURI "/Users/legomushroom/repos/vscode/.copilot/prompts/default.prompt.md" ])%list.

Definition paths_eqb (a b : list Path) : bool :=
  Nat.eqb (length a) (length b)
  && forallb (fun ab => path_eqb (fst ab) (snd ab)) (combine a b).

End LocatorFixtures.

(** ** More inputs and hosts *)

Module MoreFixtures.
Import ConfigurationResolver Examples.

(** A [pickString] input whose default is its second option. *)
Definition color_with_default : ConfiguredInput string :=
  {| id := "color"; type := "pickString"; description := Some "A color";
     default := Some "green"; password := None;
     options := Some [ PickOptionString "red";
                       PickOptionObject (Some "green") (Some "Go") ];
     command := None; args := EmptyString |}.

Definition color_options : list PickOption :=
  [ PickOptionString "red"; PickOptionObject (Some "green") (Some "Go") ].

Definition pick_options : IPickOptions :=
  {| placeHolder := Some "A color"; matchOnDetail := true;
     pick_ignoreFocusLost := true |}.

(** An input that runs a command. *)
Definition file : ConfiguredInput string :=
  {| id := "file"; type := "command"; description := None;
     default := None; password := None; options := None;
     command := Some "extension.pickFile"; args := "*.ts" |}.

(** A variable that runs a command. *)
Definition pickFile : Variable_ :=
  {| var_name := "command"; var_type := "command"; var_arg := "pickFile" |}.

(** The user answers every prompt, and the command too. *)
Definition answering_host : Host string :=
  host [who None; color; file] [Some "me"; Some "a.ts"; Some "green"].

Definition all_resolved : gmap string Nullable :=
  <["input:color" := JsString "green"]>
    (<["command:pickFile" := JsString "a.ts"]>
       (<["input:who" := JsString "me"]> ∅)).

(** A host whose commands resolve to [null]. *)
Definition null_host : Host string :=
  {| host_resolveAnyAsync := fun _ _ config _ => Ok config;
     host_getWorkbenchState := fun _ => FOLDER;
     host_inspect := fun _ _ _ => None;
     host_getValue := fun _ _ _ => None;
     host_executeCommand := fun _ _ _ => Ok CmdNull;
     host_input := fun _ _ => None;
     host_pick := fun _ _ _ => None |}.

(** What [inspect] gives when the inputs are in the user settings only. *)
Definition user_settings : InspectResult string :=
  {| userValue := Some {| inputs := Some [who None] |};
     workspaceValue := None;
     workspaceFolderValue := None;
     userRemoteValue := None |}.

Definition user_settings_host : Host string :=
  {| host_resolveAnyAsync := fun _ _ config _ => Ok config;
     host_getWorkbenchState := fun _ => FOLDER;
     host_inspect := fun _ _ _ => Some user_settings;
     host_getValue := fun _ _ _ => Some {| inputs := Some [who None] |};
     host_executeCommand := fun _ _ _ => Ok CmdUndefined;
     host_input := fun _ _ => Some "me";
     host_pick := fun _ _ _ => None |}.

(** A configuration whose variables need no interaction. *)
Definition no_interaction : string :=
  "echo ${env:HOME} ${config:editor.fontSize}".

Definition unresolved (config : string) : list Replacement :=
  if String.eqb config no_interaction
  then [ {| name := "env"; arg := "HOME" |};
         {| name := "config"; arg := "editor.fontSize" |} ]
  else Examples.unresolved config.

End MoreFixtures.

(** * Properties *)

(** ** [McpConnectionState] *)

Module McpConnectionStateSpec.
Import McpConnectionState.

Lemma append_empty (s : string) : s ++ EmptyString = s.
Proof.
  induction s as [|c s IH]; [reflexivity|].
  change (String c (s ++ EmptyString) = String c s). now rewrite IH.
Qed.

(** C6: [canBeStarted] is true exactly for the kinds [Stopped] and
    [Error]; for [Starting] and [Running] it is false. *)
Theorem canBeStarted_exactly_Stopped_or_Error :
  (forall k : Kind, canBeStarted k = true <-> (k = Stopped \/ k = Error))
  /\ canBeStarted Starting = false
  /\ canBeStarted Running = false.
Proof.
  split; [|split; reflexivity].
  intros k; split.
  - destruct k; cbn; intros H; try discriminate H; auto.
  - intros [-> | ->]; reflexivity.
Qed.

(** C10: [toString] returns a string for every connection state:
    ['Stopped'], ['Starting'], ['Running'], or ['Error '] followed by the
    message of the state; the [assertNever] branch is never taken. *)
Theorem toString_total :
  forall s : t,
    toString s <> None
    /\ toString s =
       Some (match s with
             | StoppedState => "Stopped"
             | StartingState => "Starting"
             | RunningState => "Running"
             | ErrorState message => "Error " ++ message
             end).
Proof.
  intros s.
  assert (H : toString s =
       Some (match s with
             | StoppedState => "Stopped"
             | StartingState => "Starting"
             | RunningState => "Running"
             | ErrorState message => "Error " ++ message
             end)).
  { destruct s as [| | |message]; try reflexivity.
    cbv -[String.append]. rewrite append_empty. reflexivity. }
  split; [rewrite H; discriminate | exact H].
Qed.

End McpConnectionStateSpec.

(** ** [LRUCache] *)

Module LRUCacheFacts.
Import LRUCache.

Lemma limit_checkTrim c : limit (checkTrim c) = limit c.
Proof. unfold checkTrim. now destruct (Nat.ltb (limit c) (size c)). Qed.

Lemma limit_set c k v : limit (set c k v) = limit c.
Proof. unfold set. now rewrite limit_checkTrim. Qed.

Lemma limit_get c k : limit (snd (get c k)) = limit c.
Proof. unfold get. now destruct (peek c k). Qed.

Lemma fst_get c k : fst (get c k) = peek c k.
Proof. unfold get. now destruct (peek c k). Qed.

Lemma size_checkTrim c : size (checkTrim c) <= limit c.
Proof.
  unfold checkTrim. destruct (Nat.ltb (limit c) (size c)) eqn:Hlt.
  - apply Nat.ltb_lt in Hlt. unfold size, trimOld in *. cbn.
    rewrite length_skipn. lia.
  - apply Nat.ltb_ge in Hlt. exact Hlt.
Qed.

(** After [set], the cache is within its limit. *)
Lemma size_set c k v : size (set c k v) <= limit c.
Proof. unfold set. apply (size_checkTrim (mk _ _)). Qed.

Lemma fromJSON_from_limit acc data :
  limit (fold_left (fun acc e => set acc (fst e) (snd e)) data acc)
  = limit acc.
Proof.
  revert acc. induction data as [|e data IH]; intros acc; cbn.
  - reflexivity.
  - now rewrite IH, limit_set.
Qed.

Lemma limit_fromJSON c data : limit (fromJSON c data) = limit c.
Proof. unfold fromJSON. now rewrite fromJSON_from_limit. Qed.

Lemma fromJSON_from_size acc data :
  size acc <= limit acc ->
  size (fold_left (fun acc e => set acc (fst e) (snd e)) data acc)
  <= limit acc.
Proof.
  revert acc. induction data as [|e data IH]; intros acc Hacc; cbn.
  - exact Hacc.
  - rewrite <- (limit_set acc (fst e) (snd e)). apply IH.
    rewrite limit_set. apply size_set.
Qed.

(** Whatever is read back, the cache is within its limit. *)
Lemma size_fromJSON c data : size (fromJSON c data) <= limit c.
Proof.
  unfold fromJSON.
  apply (fromJSON_from_size (mk (limit c) []) data). cbn. lia.
Qed.

Lemma fromJSON_snoc c data e :
  fromJSON c (data ++ [e]) = set (fromJSON c data) (fst e) (snd e).
Proof. unfold fromJSON. now rewrite fold_left_app. Qed.

Lemma find_without k es : List.find (has_key k) (without k es) = None.
Proof.
  induction es as [|e es IH]; cbn; [reflexivity|].
  destruct (has_key k e) eqn:He; cbn; [exact IH | now rewrite He].
Qed.

Lemma find_skipn_snoc k v n es :
  List.find (has_key k) es = None -> n <= length es ->
  List.find (has_key k) (skipn n (es ++ [(k, v)])) = Some (k, v).
Proof.
  revert n. induction es as [|e es IH]; intros n Hnone Hn; cbn in *.
  - assert (n = 0) as -> by lia. cbn. unfold has_key. cbn.
    now rewrite String.eqb_refl.
  - destruct (has_key k e) eqn:He; [discriminate Hnone|].
    destruct n as [|n]; cbn.
    + rewrite He. apply (IH 0 Hnone). lia.
    + apply IH; [exact Hnone | lia].
Qed.

Lemma last_skipn_snoc {A : Type} (x : A) n (l : list A) :
  n <= length l -> last (skipn n (l ++ [x])) = Some x.
Proof.
  intros Hn. rewrite skipn_app.
  replace (n - length l) with 0 by lia. cbn [skipn].
  apply last_snoc.
Qed.

(** The entries after [set]: the others, then the one that was set, cut
    to the newest ones. *)
Lemma entries_set c k v :
  entries (set c k v)
  = skipn (if Nat.ltb (limit c) (length (without k (entries c)) + 1)
           then length (without k (entries c)) + 1 - limit c
           else 0)
          (without k (entries c) ++ [(k, v)]).
Proof.
  unfold set, checkTrim, size, trimOld. cbn [limit entries].
  rewrite length_app. cbn [length].
  destruct (Nat.ltb (limit c) (length (without k (entries c)) + 1));
    reflexivity.
Qed.

(** What was [set] is what is found, in a cache of room for one. *)
Lemma peek_set c k v : 1 <= limit c -> peek (set c k v) k = Some v.
Proof.
  intros Hlimit. unfold peek.
  rewrite entries_set.
  rewrite find_skipn_snoc; [reflexivity | apply find_without |].
  destruct (Nat.ltb _ _) eqn:Hlt; [|lia].
  apply Nat.ltb_lt in Hlt. lia.
Qed.

(** What was [set] is the newest entry. *)
Lemma last_set c k v :
  1 <= limit c -> last (toJSON (set c k v)) = Some (k, v).
Proof.
  intros Hlimit. unfold toJSON.
  rewrite entries_set.
  apply last_skipn_snoc.
  destruct (Nat.ltb _ _) eqn:Hlt; [|lia].
  apply Nat.ltb_lt in Hlt. lia.
Qed.

(** Reading back a list finds the value of its newest entry. *)
Lemma peek_fromJSON_last c data k v :
  1 <= limit c -> last data = Some (k, v) ->
  peek (fromJSON c data) k = Some v.
Proof.
  intros Hlimit Hlast.
  destruct data as [|e data] using rev_ind; [discriminate Hlast|].
  rewrite last_snoc in Hlast. injection Hlast as ->.
  rewrite fromJSON_snoc. apply peek_set. now rewrite limit_fromJSON.
Qed.

(** A seventh entry for a cache of five: the two oldest keys are gone, and
    the key that was set again is the newest. *)
Example the_oldest_entries_are_dropped :
  fromJSON (new 5)
    [ ("a", "1"); ("b", "2"); ("c", "3"); ("d", "4"); ("e", "5"); ("f", "6");
      ("a", "7") ]
  = mk 5 [("c", "3"); ("d", "4"); ("e", "5"); ("f", "6"); ("a", "7")].
Proof. reflexivity. Qed.

Example get_makes_the_entry_the_newest :
  get (mk 5 [("a", "1"); ("b", "2"); ("c", "3")]) "a"
  = (Some "1", mk 5 [("b", "2"); ("c", "3"); ("a", "1")]).
Proof. reflexivity. Qed.

End LRUCacheFacts.

(** ** [Queue]: one task at a time *)

Module QueueFacts.

Lemma consume_loop_count {Task : Type} (max : nat)
    (outstanding : list Task) (running : nat) :
  let r := Queue.consume_loop Task max outstanding running in
  snd (snd r) = running + length (fst r)
  /\ (running <= max -> snd (snd r) <= max).
Proof.
  revert running.
  induction outstanding as [|factory rest IH]; intros running;
    cbn [Queue.consume_loop].
  - cbn. split; lia.
  - destruct (Nat.ltb running max) eqn:Hlt; cbn; [|split; lia].
    specialize (IH (S running)). cbn in IH.
    destruct (Queue.consume_loop Task max rest (S running))
      as [started [outstanding' running']].
    apply Nat.ltb_lt in Hlt. cbn in *. destruct IH as [-> Hle]. split; lia.
Qed.

Lemma act_preserves_invariant {Task : Type} (s : Queue.System Task)
    (a : Queue.Action Task) :
  Queue.invariant s -> Queue.invariant (Queue.act s a).
Proof.
  destruct s as [[max outstanding running] flying].
  unfold Queue.invariant; cbn. intros (-> & -> & Hle).
  destruct a as [factory|i]; cbn -[Nat.ltb Queue.consume_loop].
  - unfold Queue.queue, Queue.consume.
    cbn [Queue.maxDegreeOfParalellism Queue.outstandingPromises
         Queue.runningPromises].
    pose proof (consume_loop_count 1 (outstanding ++ [factory])
                  (length flying)) as Hcount.
    destruct (Queue.consume_loop Task 1 (outstanding ++ [factory])
                (length flying)) as [started [outstanding' running']].
    cbn -[length app] in *. destruct Hcount as [-> Hmax].
    rewrite length_app. repeat split; lia.
  - destruct (Nat.ltb i (length flying)) eqn:Hi;
      cbn -[Nat.ltb Queue.consume_loop]; [|repeat split; lia].
    apply Nat.ltb_lt in Hi.
    assert (Hremoved : length (Queue.remove_nth Task i flying)
                       = length flying - 1).
    { unfold Queue.remove_nth.
      rewrite length_app, length_firstn, length_skipn. lia. }
    unfold Queue.consumed; cbn -[Nat.ltb Queue.consume_loop].
    destruct (Nat.ltb 0 (length outstanding));
      cbn -[Nat.ltb Queue.consume_loop].
    + unfold Queue.consume.
      cbn [Queue.maxDegreeOfParalellism Queue.outstandingPromises
           Queue.runningPromises].
      pose proof (consume_loop_count 1 outstanding (length flying - 1))
        as Hcount.
      destruct (Queue.consume_loop Task 1 outstanding (length flying - 1))
        as [started [outstanding' running']].
      cbn -[length app] in *. destruct Hcount as [-> Hmax].
      rewrite length_app, Hremoved. repeat split; lia.
    + rewrite length_app, Hremoved. cbn. repeat split; lia.
Qed.

Lemma run_from_preserves_invariant {Task : Type}
    (actions : list (Queue.Action Task)) (s : Queue.System Task) :
  Queue.invariant s -> Queue.invariant (fold_left Queue.act actions s).
Proof.
  revert s. induction actions as [|a actions IH]; intros s Hs; cbn.
  - exact Hs.
  - apply IH, act_preserves_invariant, Hs.
Qed.

(** Three prompts are queued: the first is in flight and the others wait;
    when it settles, the second is started. *)
Example second_prompt_waits_for_the_first :
  Queue.run [Queue.Enqueue "a"; Queue.Enqueue "b"; Queue.Enqueue "c"]
  = Queue.mkSystem (Queue.mk 1 ["b"; "c"] 1) ["a"]
  /\ Queue.run [Queue.Enqueue "a"; Queue.Enqueue "b"; Queue.Enqueue "c";
                Queue.Settle 0]
     = Queue.mkSystem (Queue.mk 1 ["c"] 1) ["b"].
Proof. split; reflexivity. Qed.

End QueueFacts.

(** ** The configuration resolver service *)

Module ResolverSpec.
Import ConfigurationResolver.

Section Facts.
Context {any : Type}.
Variable unresolved : any -> list Replacement.
Variable JSON_stringify : list (string * string) -> string.
Variable JSON_parse : string -> option (list (string * string)).
Variable host : Host any.

Local Abbreviation resolveVariable := (resolveVariable JSON_stringify JSON_parse).
Local Abbreviation resolveVariables := (resolveVariables JSON_stringify JSON_parse).
Local Abbreviation resolveWithInteraction :=
  (resolveWithInteraction unresolved JSON_stringify JSON_parse).
Local Abbreviation resolveWithInteractionReplace :=
  (resolveWithInteractionReplace unresolved JSON_stringify JSON_parse).
Local Abbreviation showUserInput := (showUserInput JSON_stringify JSON_parse).
Local Abbreviation readInputLru := (readInputLru (any := any) JSON_parse).
Local Abbreviation in_order_of_appearance :=
  (in_order_of_appearance JSON_stringify JSON_parse host).

(** Running a sequence: the first part runs, and the second goes on
    from the world the first left, unless the first was rejected. *)
Lemma run_bind {A B : Type} (p : Prog any A) (f : A -> Prog any B)
    (w : World any) :
  run host (bind p f) w =
  match run host p w with
  | (Ok a, w') => run host (f a) w'
  | (Rejected e, w') => (Rejected e, w')
  end.
Proof.
  revert w. induction p as [a|e|X c k IH]; intros w; simpl; try reflexivity.
  destruct (perform host w c) as [[x|e] st]; [apply IH | reflexivity].
Qed.

Lemma resolveWithInteraction_is_loop folder config section commands target :
  resolveWithInteraction folder config section commands target =
  resolveVariables folder config section commands target
    (collectVariables (unresolved config)) ∅.
Proof.
  unfold ConfigurationResolver.resolveWithInteraction.
  destruct (collectVariables (unresolved config)); reflexivity.
Qed.

Lemma run_resolveVariables_cons folder config section commands target
    variable rest resolved w :
  run host (resolveVariables folder config section commands target
              (variable :: rest) resolved) w =
  match run host (resolveVariable folder config section commands target
                    variable) w with
  | (Ok JsUndefined, w') => (Ok None, w')
  | (Ok result, w') =>
      run host (resolveVariables folder config section commands target rest
                  (<[variableKey variable := result]> resolved)) w'
  | (Rejected e, w') => (Rejected e, w')
  end.
Proof.
  cbn [ConfigurationResolver.resolveVariables]. rewrite run_bind.
  destruct (run host _ w) as [[[text| |]|e] w']; reflexivity.
Qed.

(** The loop over the variables of a list runs the variables of a
    first part of the list before those of the rest. *)
Lemma run_resolveVariables_app folder config section commands target
    first rest resolved w :
  run host (resolveVariables folder config section commands target
              (first ++ rest) resolved) w =
  match run host (resolveVariables folder config section commands target
                    first resolved) w with
  | (Ok (Some resolved'), w') =>
      run host (resolveVariables folder config section commands target
                  rest resolved') w'
  | other => other
  end.
Proof.
  revert resolved w.
  induction first as [|variable first IH]; intros resolved w.
  - reflexivity.
  - rewrite <- app_comm_cons, !run_resolveVariables_cons.
    destruct (run host (resolveVariable _ _ _ _ _ variable) w)
      as [[[text| |]|e] w']; try reflexivity; apply IH.
Qed.

(** A map the loop returns holds what it held before and a value for
    every variable of the list. *)
Lemma resolveVariables_complete folder config section commands target
    variables resolved w resolved' w' :
  run host (resolveVariables folder config section commands target
              variables resolved) w = (Ok (Some resolved'), w') ->
  (forall key, is_Some (resolved !! key) -> is_Some (resolved' !! key))
  /\ (forall variable, In variable variables ->
        is_Some (resolved' !! variableKey variable)).
Proof.
  revert resolved w.
  induction variables as [|variable rest IH]; intros resolved w Hrun.
  - cbn in Hrun. injection Hrun as <- <-. split; [auto | intros ? []].
  - rewrite run_resolveVariables_cons in Hrun.
    destruct (run host (resolveVariable _ _ _ _ _ variable) w)
      as [[[text| |]|e] w1]; try discriminate Hrun.
    + apply IH in Hrun as [Hold Hnew]. split.
      * intros key Hkey. apply Hold.
        destruct (decide (variableKey variable = key)) as [<-|Hne];
          [rewrite lookup_insert_eq; eauto | now rewrite lookup_insert_ne].
      * intros v [<-|Hin]; [|now apply Hnew].
        apply Hold. rewrite lookup_insert_eq; eauto.
    + apply IH in Hrun as [Hold Hnew]. split.
      * intros key Hkey. apply Hold.
        destruct (decide (variableKey variable = key)) as [<-|Hne];
          [rewrite lookup_insert_eq; eauto | now rewrite lookup_insert_ne].
      * intros v [<-|Hin]; [|now apply Hnew].
        apply Hold. rewrite lookup_insert_eq; eauto.
Qed.

Lemma resolveVariables_nonempty folder config section commands target
    variables resolved w resolved' w' :
  run host (resolveVariables folder config section commands target
              variables resolved) w = (Ok (Some resolved'), w') ->
  Nat.ltb 0 (size resolved') = negb (Nat.eqb (length variables) 0)
  \/ resolved <> ∅.
Proof.
  intros Hrun. destruct variables as [|variable rest].
  - cbn in Hrun. injection Hrun as <- <-.
    destruct (decide (resolved = ∅)) as [->|Hne]; [left | now right].
    reflexivity.
  - left. apply resolveVariables_complete in Hrun as [_ Hnew].
    destruct (Hnew variable (or_introl eq_refl)) as [value Hvalue].
    destruct (size resolved') eqn:Hsize; [|reflexivity].
    apply map_size_empty_iff in Hsize. subst resolved'.
    rewrite lookup_empty in Hvalue. discriminate Hvalue.
Qed.

(** The two loops of [resolveWithInteraction], the one that collects the
    variables and the one that resolves them, do what is described: they
    go through the replacements once, in their order. *)
Lemma loops_in_order_of_appearance folder config section commands target
    replacements resolved w :
  run host (resolveVariables folder config section commands target
              (collectVariables replacements) resolved) w
  = in_order_of_appearance folder config section commands target
      replacements resolved w.
Proof.
  revert resolved w.
  induction replacements as [|replacement rest IH]; intros resolved w;
    [reflexivity|].
  unfold collectVariables in *. cbn [List.filter in_order_of_appearance].
  unfold is_input_or_command at 1.
  destruct (String.eqb (name replacement) "command") eqn:Hcommand.
  - rewrite orb_true_r. cbn [List.map].
    rewrite run_resolveVariables_cons.
    unfold ConfigurationResolver.resolveVariable, variableKey.
    cbn [var_type var_arg]. rewrite Hcommand.
    cbn [bind call run perform].
    destruct (host_executeCommand host (log w)
                (commandId_of commands (arg replacement)) config)
      as [[text| | |]|e]; cbn [run]; try reflexivity; apply IH.
  - rewrite orb_false_r.
    destruct (String.eqb (name replacement) "input") eqn:Hinput;
      [|apply IH].
    cbn [List.map]. rewrite run_resolveVariables_cons.
    unfold ConfigurationResolver.resolveVariable, variableKey.
    cbn [var_type var_arg]. rewrite Hcommand, Hinput.
    destruct (run host _ w) as [[[text| |]|e] w']; try reflexivity; apply IH.
Qed.

Lemma collectVariables_nil (replacements : list Replacement) :
  Nat.eqb (length (collectVariables replacements)) 0
  = negb (existsb (fun replacement =>
                     String.eqb (name replacement) "input"
                     || String.eqb (name replacement) "command")
                  replacements).
Proof.
  unfold collectVariables.
  induction replacements as [|replacement rest IH]; [reflexivity|].
  cbn [List.filter existsb]. unfold is_input_or_command at 1.
  destruct (String.eqb (name replacement) "input"
            || String.eqb (name replacement) "command"); [reflexivity|].
  exact IH.
Qed.

(** C1: [resolveWithInteractionReplace] first calls [resolveAnyAsync] on
    the configuration, without variables.  On the configuration this
    gives, [resolveWithInteraction] then resolves the [${input:...}] and
    [${command:...}] replacements, and these only, one after the other in
    their order of appearance: it does what [in_order_of_appearance] does
    on the unresolved replacements of that configuration, from the empty
    map.  A rejection is passed on, and a cancelled variable gives [null].
    Otherwise, when there is an input or command replacement, the map is
    not empty and [resolveAnyAsync] is called again, on the configuration
    of the first step and with the map, and what it gives is returned;
    when there is none, the map is empty, no further call is made, and
    the configuration of the first step is returned. *)
Theorem resolveWithInteractionReplace_order folder config section commands
    target w :
  let replace :=
    run host (resolveWithInteractionReplace folder config section commands
                target) w in
  let w1 :=
    {| storage := storage w;
       log := (log w ++ [logged (ResolveAnyAsync folder config None)])%list |} in
  match host_resolveAnyAsync host (log w) folder config None with
  | Rejected e => replace = (Rejected e, w1)
  | Ok config1 =>
      let interaction :=
        in_order_of_appearance folder config1 section commands target
          (unresolved config1) ∅ w1 in
      run host (resolveWithInteraction folder config1 section commands
                  target) w1 = interaction
      /\ match interaction with
         | (Rejected e, w2) => replace = (Rejected e, w2)
         | (Ok None, w2) => replace = (Ok ReturnNull, w2)
         | (Ok (Some resolved), w2) =>
             if existsb (fun replacement =>
                           String.eqb (name replacement) "input"
                           || String.eqb (name replacement) "command")
                        (unresolved config1)
             then
               0 < size resolved
               /\ replace =
                  (match host_resolveAnyAsync host (log w2) folder config1
                           (Some resolved) with
                   | Ok config2 => Ok (ReturnConfig config2)
                   | Rejected e => Rejected e
                   end,
                   {| storage := storage w2;
                      log := (log w2 ++
                              [logged (ResolveAnyAsync folder config1
                                         (Some resolved))])%list |})
             else
               resolved = ∅ /\ w2 = w1
               /\ replace = (Ok (ReturnConfig config1), w1)
         end
  end.
Proof.
  intros replace w1. subst replace.
  unfold ConfigurationResolver.resolveWithInteractionReplace.
  rewrite run_bind. cbn [run call perform].
  fold w1.
  destruct (host_resolveAnyAsync host (log w) folder config None)
    as [config1|e]; [|reflexivity].
  cbn zeta.
  assert (Hrun :
    run host (resolveWithInteraction folder config1 section commands target)
      w1
    = in_order_of_appearance folder config1 section commands target
        (unresolved config1) ∅ w1).
  { rewrite resolveWithInteraction_is_loop.
    apply loops_in_order_of_appearance. }
  split; [exact Hrun|].
  rewrite run_bind, Hrun.
  destruct (in_order_of_appearance folder config1 section commands target
              (unresolved config1) ∅ w1) as [[[resolved|]|e] w2] eqn:Hloop;
    try reflexivity.
  rewrite <- loops_in_order_of_appearance in Hloop.
  rewrite <- (negb_involutive (existsb _ _)), <- collectVariables_nil.
  destruct (resolveVariables_nonempty _ _ _ _ _ _ _ _ _ _ Hloop)
    as [Hsize|Hne]; [|now contradiction Hne].
  destruct (Nat.eqb (length (collectVariables (unresolved config1))) 0)
    eqn:Hnone; cbn [negb] in *.
  - rewrite Hsize.
    destruct (collectVariables (unresolved config1)); [|discriminate Hnone].
    cbn in Hloop. injection Hloop as <- <-. auto.
  - rewrite Hsize. split; [now apply Nat.ltb_lt in Hsize|].
    rewrite run_bind. cbn [run call perform].
    destruct (host_resolveAnyAsync host (log w2) folder config1
                (Some resolved)); reflexivity.
Qed.

(** C2: when the prompt of a variable is cancelled, that is the result
    for the variable is [undefined], after the variables before it were
    resolved, [resolveWithInteraction] returns [undefined] in the world
    the cancelled prompt left (no call is made for the remaining
    variables), and [resolveWithInteractionReplace] returns [null]; a
    map that [resolveWithInteraction] does return has a value for every
    input and command variable. *)
Theorem cancelled_prompt_skips_the_rest folder config section commands
    target first variable rest w config1 resolved w1 w2 :
  let w0 :=
    {| storage := storage w;
       log := (log w ++ [logged (ResolveAnyAsync folder config None)])%list |} in
  host_resolveAnyAsync host (log w) folder config None = Ok config1 ->
  collectVariables (unresolved config1) = (first ++ variable :: rest)%list ->
  run host (resolveVariables folder config1 section commands target
              first ∅) w0 = (Ok (Some resolved), w1) ->
  run host (resolveVariable folder config1 section commands target
              variable) w1 = (Ok JsUndefined, w2) ->
  run host (resolveWithInteraction folder config1 section commands target)
      w0 = (Ok None, w2)
  /\ run host (resolveWithInteractionReplace folder config section commands
                 target) w = (Ok ReturnNull, w2)
  /\ (forall config' w' resolved' w'',
        run host (resolveWithInteraction folder config' section commands
                    target) w' = (Ok (Some resolved'), w'') ->
        forall v, In v (collectVariables (unresolved config')) ->
                  is_Some (resolved' !! variableKey v)).
Proof.
  intros w0 Hfirst Hvariables Hprefix Hcancel.
  assert (Hinteraction :
    run host (resolveWithInteraction folder config1 section commands target)
        w0 = (Ok None, w2)).
  { rewrite resolveWithInteraction_is_loop, Hvariables.
    rewrite run_resolveVariables_app, Hprefix.
    rewrite run_resolveVariables_cons, Hcancel. reflexivity. }
  split; [exact Hinteraction|]. split.
  - unfold ConfigurationResolver.resolveWithInteractionReplace.
    rewrite run_bind. cbn [run call perform]. rewrite Hfirst.
    fold w0. rewrite run_bind, Hinteraction. reflexivity.
  - intros config' w' resolved' w'' Hrun v Hin.
    rewrite resolveWithInteraction_is_loop in Hrun.
    apply resolveVariables_complete in Hrun as [_ Hnew]. now apply Hnew.
Qed.

(** *** Prompts go through the queue *)

Lemma every_call_bind (P : forall X : Type, Call any X -> Prop)
    {A B : Type} (p : Prog any A) (f : A -> Prog any B) :
  every_call P p -> (forall a, every_call P (f a)) ->
  every_call P (bind p f).
Proof.
  intros Hp Hf. induction p as [a|e|X c k IH]; cbn in *; auto.
  destruct Hp as [Hc Hk]. split; [exact Hc | intros x; apply IH, Hk].
Qed.

Ltac branches :=
  repeat match goal with
    | |- every_call _ (match ?x with _ => _ end) => destruct x
    | |- every_call _ (if ?b then _ else _) => destruct b
    | |- every_call _ (let '(_, _) := ?x in _) => destruct x
    | |- every_call _ (bind _ _) => apply every_call_bind; [|intros ?]
    | |- every_call _ (call _) =>
        cbn; split; [reflexivity | intros ?; exact I]
    | |- every_call _ (Ret _) => exact I
    | |- every_call _ (Throw _) => exact I
    | |- every_call _ (missingAttribute _ _ _) => exact I
    end.

Lemma showUserInput_queues_its_prompts section variable inputInfos :
  every_call (@not_a_bare_prompt any)
    (showUserInput section variable inputInfos).
Proof.
  unfold ConfigurationResolver.showUserInput,
    ConfigurationResolver.readInputLru,
    ConfigurationResolver.storeInputLru.
  branches.
Qed.

(** The command of a [${command:...}] variable, which is not an input, is
    executed by [resolveWithInteraction] itself, outside the queue. *)
Lemma command_variable_bypasses_the_queue folder config section commands
    target argument :
  ~ every_call (@not_a_bare_prompt any)
      (resolveVariable folder config section commands target
         {| var_name := "command"; var_type := "command";
            var_arg := argument |}).
Proof. cbn. intros [Hbare _]. discriminate Hbare. Qed.

(** *** Resolutions that run at the same time *)

Lemma continue_keeps_to_the_queue {A X : Type} (r : Result X)
    (k : X -> Prog any A) :
  (forall x, every_call (@not_a_bare_prompt any) (k x)) ->
  keeps_to_the_queue (continue r k).
Proof. intros Hk. destruct r as [x|e]; cbn; [apply Hk | exact I]. Qed.

Lemma turn_preserves_invariant {A : Type} (w : World any)
    (pool : Pool any A) (t : Turn) :
  pool_invariant w pool -> pool_invariant w (turn host pool t).
Proof.
  intros Hpool. pose proof Hpool as (Hthreads & Hqueue & new & Hlog & Hnew).
  destruct t as [i|j]; cbn [turn].
  - unfold advance.
    destruct (threads pool !! i) as [[[a|e|X c k]|X factory k|r]|] eqn:Hi;
      try exact Hpool.
    + split; [|split]; cbn [threads userInputAccessQueue pool_world log]; eauto. now apply Forall_insert.
    + split; [|split]; cbn [threads userInputAccessQueue pool_world log]; eauto. now apply Forall_insert.
    + pose proof (Forall_lookup_1 _ _ _ _ Hthreads Hi) as [Hc Hk].
      destruct (queued c) as [factory|].
      * split; [|split]; cbn [threads userInputAccessQueue pool_world log]; eauto.
        -- now apply Forall_insert.
        -- now apply QueueFacts.act_preserves_invariant.
      * destruct (perform host (pool_world pool) c) as [r st].
        split; [|split]; cbn [threads userInputAccessQueue pool_world log]; eauto.
        -- apply Forall_insert; [exact Hthreads|].
           now apply continue_keeps_to_the_queue.
        -- exists (new ++ [logged c])%list. split.
           ++ now rewrite Hlog, app_assoc.
           ++ apply Forall_app. split; [exact Hnew|]. now repeat constructor.
  - unfold settle.
    destruct (Queue.inFlight (userInputAccessQueue pool) !! j) as [i|];
      [|exact Hpool].
    destruct (threads pool !! i) as [[p|X factory k|r]|] eqn:Hi;
      try exact Hpool.
    pose proof (Forall_lookup_1 _ _ _ _ Hthreads Hi) as Hk.
    destruct (perform host (pool_world pool) factory) as [r st].
    split; [|split]; cbn [threads userInputAccessQueue pool_world log].
    + apply Forall_insert; [exact Hthreads|].
      now apply continue_keeps_to_the_queue.
    + now apply QueueFacts.act_preserves_invariant.
    + exists (new ++ [logged (Queue_queue factory)])%list. split.
      * now rewrite Hlog, app_assoc.
      * apply Forall_app. split; [exact Hnew|]. now repeat constructor.
Qed.

Lemma turns_preserve_invariant {A : Type} (w : World any)
    (turns : list Turn) (pool : Pool any A) :
  pool_invariant w pool -> pool_invariant w (fold_left (turn host) turns pool).
Proof.
  revert pool. induction turns as [|t turns IH]; intros pool Hpool; cbn.
  - exact Hpool.
  - apply IH, turn_preserves_invariant, Hpool.
Qed.

Lemma resolutions_invariant calls (w : World any) :
  pool_invariant w (resolutions JSON_stringify JSON_parse calls w).
Proof.
  split; [|split].
  - cbn. apply Forall_map, Forall_forall. intros r _. cbn.
    apply showUserInput_queues_its_prompts.
  - unfold Queue.invariant. cbn. repeat split; lia.
  - exists []. split; [cbn; now rewrite app_nil_r | constructor].
Qed.

(** C3: the quick input of a [promptString], the quick pick of a
    [pickString] and the command of an input of type [command] are
    only ever called as a factory given to the [userInputAccessQueue]
    (on every path through [showUserInput], no prompt is called
    directly); whatever is queued and whenever tasks settle, the queue
    has at most one task in flight; and when any number of calls of
    [showUserInput] run at the same time, in whatever order they take
    their steps and their prompts are answered, at most one prompt is in
    flight, and no call that was made is a prompt outside the queue. *)
Theorem prompts_are_single_flight :
  (forall section variable inputInfos,
     every_call (@not_a_bare_prompt any)
       (showUserInput section variable inputInfos))
  /\ (forall actions : list (Queue.Action (Logged any)),
        length (Queue.inFlight (Queue.run actions)) <= 1)
  /\ (forall calls w turns,
        let pool :=
          fold_left (turn host) turns
            (resolutions JSON_stringify JSON_parse calls w) in
        length (Queue.inFlight (userInputAccessQueue pool)) <= 1
        /\ exists new,
             log (pool_world pool) = (log w ++ new)%list
             /\ Forall (fun entry => is_prompt (made entry) = false) new).
Proof.
  split; [|split].
  - apply showUserInput_queues_its_prompts.
  - intros actions.
    apply (QueueFacts.run_from_preserves_invariant actions Queue.initial).
    unfold Queue.invariant; cbn. repeat split; lia.
  - intros calls w turns pool.
    destruct (turns_preserve_invariant w turns _
                (resolutions_invariant calls w))
      as (_ & (_ & _ & Hflight) & Hlog).
    split; [exact Hflight | exact Hlog].
Qed.

(** *** Inputs that cannot be prompted for *)

Lemma info_of_None variable (inputInfos : list (ConfiguredInput any)) :
  existsb (fun item => String.eqb (id item) variable) inputInfos = false ->
  info_of variable inputInfos = None.
Proof.
  unfold info_of. intros Hnone.
  assert (Hfilter : List.filter
            (fun item => String.eqb (id item) variable) inputInfos = []).
  { induction inputInfos as [|item rest IH]; [reflexivity|].
    cbn in *. apply orb_false_iff in Hnone as [-> Hrest]. now apply IH. }
  now rewrite Hfilter.
Qed.

Lemma showUserInput_rejects section variable inputInfos w :
  cannot_prompt variable inputInfos = true ->
  exists message w',
    run host (showUserInput section variable inputInfos) w
    = (Rejected (VariableError Input message), w')
    /\ storage w' = storage w.
Proof.
  unfold cannot_prompt, ConfigurationResolver.showUserInput.
  destruct inputInfos as [inputInfos|]; [|intros _; cbn; eauto].
  intros Hcannot.
  destruct (existsb _ inputInfos) eqn:Hexists; cbn [negb orb] in Hcannot.
  2: { rewrite info_of_None by exact Hexists. cbn; eauto. }
  destruct (info_of variable inputInfos) as [info|]; [|cbn; eauto].
  rewrite run_bind.
  unfold ConfigurationResolver.readInputLru. cbn [bind call run perform].
  set (w1 := {| storage := storage w; log := _ |}).
  match goal with
  | |- context [LRUCache.get ?lru ?key] =>
      destruct (LRUCache.get lru key) as [previous defaultValueMap]
  end.
  unfold misses_attribute in Hcannot.
  destruct (String.eqb (type info) "promptString").
  { rewrite Hcannot. cbn; eauto. }
  destruct (String.eqb (type info) "pickString").
  { destruct (is_some (description info)); [|cbn; eauto].
    cbn [negb orb] in Hcannot.
    destruct (options info) as [pickOptions|]; [|cbn; eauto].
    rewrite Hcannot. cbn; eauto. }
  destruct (String.eqb (type info) "command"); [|cbn; eauto].
  destruct (command info); [discriminate Hcannot | cbn; eauto].
Qed.

Lemma resolveInputs_None folder section target w :
  host_getWorkbenchState host (log w) = EMPTY \/ truthy section = false ->
  exists w', run host (resolveInputs folder section target) w
             = (Ok None, w').
Proof.
  intros Hnone. unfold ConfigurationResolver.resolveInputs.
  cbn [bind call run perform].
  destruct Hnone as [-> | ->]; [cbn; eauto|].
  destruct (host_getWorkbenchState host (log w)); cbn; eauto.
Qed.

(** C9: when there is no [inputs] section, or the id of the variable
    is not in it, or the input configured for it misses a required
    attribute or has an unknown type, [showUserInput] throws a
    [VariableError] of kind [Input], and stores nothing; then
    [resolveWithInteraction] is rejected with that error once the
    variables before this one are resolved; and [resolveInputs] gives no
    section in an empty workbench or without a section name. *)
Theorem unusable_input_is_an_Input_error variable inputInfos :
  cannot_prompt variable inputInfos = true ->
  (forall section w,
     exists message w',
       run host (showUserInput section variable inputInfos) w
       = (Rejected (VariableError Input message), w')
       /\ storage w' = storage w)
  /\ (forall folder config section commands target first v rest resolved
             w0 w1 w2,
        collectVariables (unresolved config) = (first ++ v :: rest)%list ->
        var_type v = "input" -> var_arg v = variable ->
        run host (resolveVariables folder config section commands target
                    first ∅) w0 = (Ok (Some resolved), w1) ->
        run host (resolveInputs folder section target) w1
        = (Ok inputInfos, w2) ->
        exists message w',
          run host (resolveWithInteraction folder config section commands
                      target) w0
          = (Rejected (VariableError Input message), w'))
  /\ (forall folder section target w,
        host_getWorkbenchState host (log w) = EMPTY
        \/ truthy section = false ->
        exists w', run host (resolveInputs folder section target) w
                   = (Ok None, w')).
Proof.
  intros Hcannot. split; [|split].
  - intros section w. now apply showUserInput_rejects.
  - intros folder config section commands target first v rest resolved
           w0 w1 w2 Hvariables Htype Harg Hprefix Hinputs.
    destruct (showUserInput_rejects (template section) variable inputInfos
                w2 Hcannot) as (message & w' & Hshow & _).
    exists message, w'.
    rewrite resolveWithInteraction_is_loop, Hvariables.
    rewrite run_resolveVariables_app, Hprefix.
    rewrite run_resolveVariables_cons.
    unfold ConfigurationResolver.resolveVariable.
    rewrite Htype, Harg. cbn [String.eqb Ascii.eqb Bool.eqb].
    rewrite run_bind, Hinputs, Hshow. reflexivity.
  - intros folder section target w. apply resolveInputs_None.
Qed.

(** *** The persisted cache *)

Local Abbreviation persisted_bounded := (persisted_bounded JSON_stringify).
Local Abbreviation stores_bounded_cache :=
  (fun X => @stores_bounded_cache any JSON_stringify X).

Lemma every_call_bind_return (P : forall X : Type, Call any X -> Prop)
    {A B : Type} (R : A -> Prop) (p : Prog any A) (f : A -> Prog any B) :
  every_call P p -> every_return R p ->
  (forall a, R a -> every_call P (f a)) ->
  every_call P (bind p f).
Proof.
  intros Hp Hr Hf. induction p as [a|e|X c k IH]; cbn in *; auto.
  destruct Hp as [Hc Hk]. split; [exact Hc | intros x; apply IH; auto].
Qed.

Lemma readInputLru_limit :
  every_return
    (fun lru => LRUCache.limit lru = LAST_INPUT_CACHE_SIZE
                /\ LRUCache.size lru <= LAST_INPUT_CACHE_SIZE)
    readInputLru.
Proof.
  intros contents. cbn.
  destruct contents as [text|]; [|cbn; split; [reflexivity | lia]].
  destruct (String.eqb text EmptyString); [cbn; split; [reflexivity|lia]|].
  destruct (JSON_parse text) as [data|]; [|cbn; split; [reflexivity|lia]].
  split; [apply LRUCacheFacts.limit_fromJSON|].
  apply (LRUCacheFacts.size_fromJSON (LRUCache.new LAST_INPUT_CACHE_SIZE)).
Qed.

Lemma store_is_bounded lru key text :
  LRUCache.limit lru = LAST_INPUT_CACHE_SIZE ->
  every_call stores_bounded_cache
    (storeInputLru JSON_stringify (LRUCache.set lru key text)).
Proof.
  intros Hlimit. cbn. split; [|intros ?; exact I].
  repeat split. eexists; split; [reflexivity|].
  rewrite <- Hlimit. apply LRUCacheFacts.size_set.
Qed.

Ltac bounded_branches :=
  repeat match goal with
    | |- every_call _ (match ?x with _ => _ end) => destruct x
    | |- every_call _ (if ?b then _ else _) => destruct b
    | |- every_call _ (bind (storeInputLru _ _) _) =>
        apply every_call_bind; [now apply store_is_bounded | intros ?]
    | |- every_call _ (bind _ _) => apply every_call_bind; [|intros ?]
    | |- every_call _ (call _) => cbn; split; [exact I | intros ?; exact I]
    | |- every_call _ (Ret _) => exact I
    | |- every_call _ (Throw _) => exact I
    | |- every_call _ (missingAttribute _ _ _) => exact I
    end.

Lemma showUserInput_stores_bounded section variable inputInfos :
  every_call stores_bounded_cache
    (showUserInput section variable inputInfos).
Proof.
  unfold ConfigurationResolver.showUserInput.
  destruct inputInfos as [inputInfos|]; [|exact I].
  destruct (info_of variable inputInfos) as [info|]; [|exact I].
  eapply every_call_bind_return; [|apply readInputLru_limit|].
  { cbn. split; [exact I | intros ?; exact I]. }
  cbn beta. intros lru [Hlimit _].
  pose proof (LRUCacheFacts.limit_get lru (section ++ "." ++ variable))
    as Hget.
  destruct (LRUCache.get lru (section ++ "." ++ variable))
    as [previous defaultValueMap].
  cbn [snd] in Hget. rewrite Hlimit in Hget.
  bounded_branches.
Qed.

Lemma perform_bounded {X : Type} (c : Call any X) (w : World any) :
  stores_bounded_cache X c ->
  snd (perform host w c) = storage w
  \/ persisted_bounded (snd (perform host w c)).
Proof.
  induction c; cbn; intros Hc; auto.
  destruct Hc as (-> & -> & data & -> & Hdata).
  right. exists data. split; [|exact Hdata].
  cbn. apply lookup_insert_eq.
Qed.

Lemma run_bounded {A : Type} (p : Prog any A) (w : World any) :
  every_call stores_bounded_cache p ->
  storage (snd (run host p w)) = storage w
  \/ persisted_bounded (storage (snd (run host p w))).
Proof.
  revert w. induction p as [a|e|X c k IH]; intros w Hp; cbn; auto.
  destruct Hp as [Hc Hk].
  pose proof (perform_bounded c w Hc) as Hperform.
  destruct (perform host w c) as [[x|e] st]; cbn in *; [|exact Hperform].
  specialize (IH x {| storage := st;
                      log := (log w ++ [logged c])%list |} (Hk x)).
  cbn in IH. destruct IH as [-> | Hbounded]; [exact Hperform | now right].
Qed.

(** C5: every read of the cache makes an [LRUCache] of capacity
    [LAST_INPUT_CACHE_SIZE], which is 5, and what it reads back has at
    most 5 entries; every store puts the serialized cache under the key
    [configResolveInputLru] of the workspace storage; and after any
    sequence of [showUserInput] resolutions the storage is as it was,
    or the cache persisted under that key has at most 5 entries. *)
Theorem persisted_cache_has_at_most_5_entries :
  (LAST_INPUT_CACHE_SIZE = 5
   /\ LAST_INPUT_STORAGE_KEY = "configResolveInputLru")
  /\ (forall w,
        exists lru,
          run host readInputLru w
          = (Ok lru,
             {| storage := storage w;
                log := (log w ++
                        [logged (StorageGet LAST_INPUT_STORAGE_KEY
                                   WORKSPACE)])%list |})
          /\ LRUCache.limit lru = 5 /\ LRUCache.size lru <= 5)
  /\ (forall lru w,
        run host (storeInputLru JSON_stringify lru) w
        = (Ok tt,
           {| storage :=
                storage_store (storage w) LAST_INPUT_STORAGE_KEY
                  (JSON_stringify (LRUCache.toJSON lru)) WORKSPACE;
              log := (log w ++
                      [logged (StorageStore LAST_INPUT_STORAGE_KEY
                                 (JSON_stringify (LRUCache.toJSON lru))
                                 WORKSPACE MACHINE)])%list |}))
  /\ (forall (resolutions :
                list (string * string * option (list (ConfiguredInput any))))
             w,
        let w' :=
          fold_left
            (fun w r => snd (run host (showUserInput r.1.1 r.1.2 r.2) w))
            resolutions w in
        storage w' = storage w
        \/ exists data : list (string * string),
             storage_get (storage w') LAST_INPUT_STORAGE_KEY WORKSPACE
             = Some (JSON_stringify data)
             /\ length data <= 5).
Proof.
  split; [split; reflexivity|]. split; [|split].
  - intros w.
    pose proof readInputLru_limit as Hlimit.
    unfold ConfigurationResolver.readInputLru in *.
    cbn [bind call run perform every_return] in *.
    eexists. split; [reflexivity|]. exact (Hlimit _).
  - intros lru w. reflexivity.
  - intros resolutions. induction resolutions as [|r rest IH] using rev_ind;
      intros w; cbn zeta; [now left|].
    rewrite fold_left_app. cbn [fold_left].
    specialize (IH w). cbn zeta in IH.
    set (w1 := fold_left _ rest w) in *.
    destruct (run_bounded (showUserInput r.1.1 r.1.2 r.2) w1
                (showUserInput_stores_bounded _ _ _)) as [-> | Hbounded].
    + exact IH.
    + right. exact Hbounded.
Qed.

(** *** The prompt of a [promptString] *)

Lemma run_every_return {A : Type} (R : A -> Prop) (p : Prog any A) w a w' :
  every_return R p -> run host p w = (Ok a, w') -> R a.
Proof.
  revert w. induction p as [b|e|X c k IH]; intros w Hp Hrun; cbn in *.
  - now injection Hrun as <- _.
  - discriminate Hrun.
  - destruct (perform host w c) as [[x|e] st]; [|discriminate Hrun].
    eapply IH; [apply Hp | exact Hrun].
Qed.

(** C4, as amended: a [promptString] with a description prompts with
    the value of the key [section.variable] in the cache read from the
    workspace storage as initial value, unless the input has a
    non-empty [default], which is then the initial value; when the user
    submits a string, the cache with that string as newest entry for
    the key is stored before the string is returned, and where the
    serialized cache parses back, the next read of the cache finds the
    string under the key. *)
Theorem promptString_prefill_and_write_back section variable inputInfos
    info w lru w1 :
  info_of variable inputInfos = Some info ->
  type info = "promptString" ->
  is_some (description info) = true ->
  run host readInputLru w = (Ok lru, w1) ->
  let key := section ++ "." ++ variable in
  let options :=
    {| prompt := description info;
       input_ignoreFocusLost := true;
       input_value :=
         if truthy (default info) then default info
         else LRUCache.peek lru key;
       input_password :=
         match password info with Some true => Some true | _ => None end |}
  in
  let w2 :=
    {| storage := storage w1;
       log := (log w1 ++ [logged (Queue_queue (QuickInput options))])%list |}
  in
  match host_input host (log w1) options with
  | None =>
      run host (showUserInput section variable (Some inputInfos)) w
      = (Ok JsUndefined, w2)
  | Some text =>
      let lru' := LRUCache.set (snd (LRUCache.get lru key)) key text in
      let stored := JSON_stringify (LRUCache.toJSON lru') in
      let w3 :=
        {| storage :=
             storage_store (storage w2) LAST_INPUT_STORAGE_KEY stored
               WORKSPACE;
           log := (log w2 ++
                   [logged (StorageStore LAST_INPUT_STORAGE_KEY stored
                              WORKSPACE MACHINE)])%list |} in
      run host (showUserInput section variable (Some inputInfos)) w
      = (Ok (JsString text), w3)
      /\ last (LRUCache.toJSON lru') = Some (key, text)
      /\ (stored <> EmptyString ->
          JSON_parse stored = Some (LRUCache.toJSON lru') ->
          forall w', storage w' = storage w3 ->
            exists lru2 w'',
              run host readInputLru w' = (Ok lru2, w'')
              /\ LRUCache.peek lru2 key = Some text)
  end.
Proof.
  intros Hinfo Htype Hdescription Hread key options w2.
  pose proof (run_every_return _ _ _ _ _ readInputLru_limit Hread)
    as [Hlimit _].
  assert (Hrun :
    run host (showUserInput section variable (Some inputInfos)) w
    = match host_input host (log w1) options with
      | None => (Ok JsUndefined, w2)
      | Some text =>
          run host
            (bind (storeInputLru JSON_stringify
                     (LRUCache.set (snd (LRUCache.get lru key)) key text))
                  (fun _ => Ret (JsString text))) w2
      end).
  { unfold ConfigurationResolver.showUserInput. rewrite Hinfo.
    rewrite run_bind, Hread. fold key.
    pose proof (LRUCacheFacts.fst_get lru key) as Hpeek.
    destruct (LRUCache.get lru key) as [previous defaultValueMap].
    cbn [fst snd] in *. subst previous.
    rewrite Htype, Hdescription.
    cbn [String.eqb Ascii.eqb Bool.eqb negb].
    rewrite run_bind. cbn [run call perform]. fold options. fold w2.
    destruct (host_input host (log w1) options); reflexivity. }
  rewrite Hrun. clear Hrun.
  destruct (host_input host (log w1) options) as [text|]; [|reflexivity].
  cbn zeta. split; [reflexivity|].
  assert (Hlast :
    last (LRUCache.toJSON
            (LRUCache.set (snd (LRUCache.get lru key)) key text))
    = Some (key, text)).
  { apply LRUCacheFacts.last_set.
    rewrite LRUCacheFacts.limit_get, Hlimit. cbv; lia. }
  split; [exact Hlast|].
  intros Hnonempty Hparse w' Hstorage.
  unfold ConfigurationResolver.readInputLru.
  cbn [bind call run perform]. do 2 eexists. split; [reflexivity|].
  rewrite Hstorage. cbn [storage storage_get storage_store
                         workspace_storage].
  rewrite lookup_insert_eq.
  destruct (String.eqb _ EmptyString) eqn:Hempty.
  { apply String.eqb_eq in Hempty. contradiction. }
  rewrite Hparse.
  apply LRUCacheFacts.peek_fromJSON_last; [cbv; lia | exact Hlast].
Qed.

End Facts.
End ResolverSpec.

(** ** The class at work *)

Module ResolverExamples.
Import ConfigurationResolver Examples.

(** The user cancels the command of the second of three variables: the
    third is not prompted for, and the result is [null]. *)
Lemma cancelled_command_returns_null :
  run cancelling_host
      (resolveWithInteractionReplace None three_variables (Some "tasks")
         None None) fresh
  = (Ok ReturnNull, after_cancel).
Proof.
  refine (proj1 (proj2
    (ResolverSpec.cancelled_prompt_skips_the_rest
       unresolved Json.stringify Json.parse cancelling_host
       None three_variables (Some "tasks") None None
       [ {| var_name := "input"; var_type := "input"; var_arg := "who" |} ]
       {| var_name := "command"; var_type := "command";
          var_arg := "pickFile" |}
       [ {| var_name := "input"; var_type := "input"; var_arg := "color" |} ]
       fresh three_variables
       (<["input:who" := JsString "me"]> ∅) after_who after_cancel
       _ _ _ _))).
  - reflexivity.
  - reflexivity.
  - vm_compute. reflexivity.
  - vm_compute. reflexivity.
Defined.

(** No input is configured for the variable [missing]. *)
Lemma missing_input_is_an_Input_error :
  exists message w',
    run cancelling_host
        (showUserInput "tasks" "missing" (Some [who None; color])) fresh
    = (Rejected (VariableError Input message), w')
    /\ storage w' = storage fresh.
Proof.
  refine (proj1
    (ResolverSpec.unusable_input_is_an_Input_error
       unresolved Json.stringify Json.parse cancelling_host
       "missing" (Some [who None; color]) _) "tasks" fresh).
  reflexivity.
Defined.

(** The input has the default [dflt] and the cache the value [old]: the
    prompt starts with [dflt], and what the user types is stored. *)
Lemma default_is_prefilled_and_answer_stored :
  run (typing_host (Some "dflt"))
      (showUserInput "tasks" "who" (Some [who (Some "dflt")])) cached
  = (Ok (JsString "new"), after_typing (Some "dflt")).
Proof.
  refine (proj1
    (ResolverSpec.promptString_prefill_and_write_back
       Json.stringify Json.parse (typing_host (Some "dflt"))
       "tasks" "who" [who (Some "dflt")] (who (Some "dflt")) cached
       {| LRUCache.limit := 5; LRUCache.entries := [("tasks.who", "old")] |}
       {| storage := storage cached;
          log := [logged (StorageGet LAST_INPUT_STORAGE_KEY WORKSPACE)] |}
       _ _ _ _)).
  - reflexivity.
  - reflexivity.
  - reflexivity.
  - vm_compute. reflexivity.
Defined.

(** The input has the explicit default of the empty string and the cache
    the value [old]: the prompt starts with [old], not with the default. *)
Lemma empty_default_does_not_take_precedence :
  default (who (Some EmptyString)) = Some EmptyString
  /\ run (typing_host (Some EmptyString))
         (showUserInput "tasks" "who" (Some [who (Some EmptyString)])) cached
     = (Ok (JsString "new"), after_typing (Some "old"))
  /\ input_value (who_options (Some "old"))
     <> default (who (Some EmptyString)).
Proof.
  split; [reflexivity|]. split; [vm_compute; reflexivity | discriminate].
Qed.

(** What was typed is the initial value of the next prompt for the key. *)
Example the_answer_is_prefilled_next_time :
  run (typing_host None) (showUserInput "tasks" "who" (Some [who None]))
      {| storage := storage (after_typing None); log := [] |}
  = (Ok (JsString "new"), after_typing (Some "new")).
Proof. vm_compute. reflexivity. Qed.

(** All three variables are answered: the calls in their order, with the
    value picked last time first among the picks, and the second
    interpolation with the three values. *)
Example three_variables_resolved :
  let color_picks :=
    [ {| item_label := "Go: green"; item_value := "green";
         item_description := None |};
      {| item_label := "red"; item_value := "red";
         item_description := None |} ] in
  let color_options :=
    {| placeHolder := Some "A color"; matchOnDetail := true;
       pick_ignoreFocusLost := true |} in
  let resolved : gmap string Nullable :=
    <["input:color" := JsString "green"]>
      (<["command:pickFile" := JsString "/f"]>
         (<["input:who" := JsString "me"]> ∅)) in
  let first_store := Json.stringify [("tasks.color", "green"); ("tasks.who", "me")] in
  let second_store := Json.stringify [("tasks.who", "me"); ("tasks.color", "green")] in
  run (host [who None; color] [Some "me"; Some "/f"; Some "green"])
      (resolveWithInteractionReplace None three_variables (Some "tasks")
         None None)
      (world [("tasks.color", "green")])
  = (Ok (ReturnConfig three_variables),
     {| storage := storage_store empty_storage LAST_INPUT_STORAGE_KEY
                     second_store WORKSPACE;
        log := [ logged (ResolveAnyAsync None three_variables None);
                 logged GetWorkbenchState;
                 logged (Inspect "tasks" None);
                 logged (StorageGet LAST_INPUT_STORAGE_KEY WORKSPACE);
                 logged (Queue_queue (QuickInput (who_options None)));
                 logged (StorageStore LAST_INPUT_STORAGE_KEY first_store
                           WORKSPACE MACHINE);
                 logged (ExecuteCommand "pickFile" three_variables);
                 logged GetWorkbenchState;
                 logged (Inspect "tasks" None);
                 logged (StorageGet LAST_INPUT_STORAGE_KEY WORKSPACE);
                 logged (Queue_queue (QuickPick color_picks color_options));
                 logged (StorageStore LAST_INPUT_STORAGE_KEY second_store
                           WORKSPACE MACHINE);
                 logged (ResolveAnyAsync None three_variables
                           (Some resolved)) ] |}).
Proof.
  intros color_picks color_options resolved first_store second_store.
  exact (proj2 (proj2
    (ResolverSpec.resolveWithInteractionReplace_order
       unresolved Json.stringify Json.parse
       (host [who None; color] [Some "me"; Some "/f"; Some "green"])
       None three_variables (Some "tasks") None None
       (world [("tasks.color", "green")])))).
Defined.

(** A configuration without input or command variables: one call. *)
Example no_interactive_variable :
  run cancelling_host
      (resolveWithInteractionReplace None "plain" (Some "tasks") None None)
      fresh
  = (Ok (ReturnConfig "plain"),
     {| storage := empty_storage;
        log := [logged (ResolveAnyAsync None "plain" None)] |}).
Proof. vm_compute. reflexivity. Qed.

(** A variable without configured input rejects the resolution. *)
Example missing_input_rejects_the_resolution :
  run cancelling_host
      (resolveWithInteractionReplace None "echo ${env:HOME} ${input:missing}"
         (Some "tasks") None None)
      fresh
  = (Rejected
       (VariableError Input
          "Undefined input variable 'missing' encountered. Remove or define 'missing' to continue."),
     {| storage := empty_storage;
        log := [ logged (ResolveAnyAsync None
                           "echo ${env:HOME} ${input:missing}" None);
                 logged GetWorkbenchState;
                 logged (Inspect "tasks" None) ] |}).
Proof. vm_compute. reflexivity. Qed.

(** Two calls of [showUserInput] read the cache and queue their prompts:
    the first prompt is in flight and the second waits; when the first is
    answered, the second is started. *)
Example second_resolution_waits_for_its_prompt :
  let host := host [who None; color] [Some "me"; Some "red"] in
  let both_queued := [Advance 0; Advance 0; Advance 1; Advance 1] in
  userInputAccessQueue (fold_left (turn host) both_queued two_at_once)
  = Queue.mkSystem (Queue.mk 1 [1] 1) [0]
  /\ userInputAccessQueue
       (fold_left (turn host) (both_queued ++ [Answer 0]) two_at_once)
     = Queue.mkSystem (Queue.mk 1 [] 1) [1].
Proof. split; vm_compute; reflexivity. Qed.

End ResolverExamples.

(** ** The prompt-files locator *)

Module LocatorSpec.
Import PromptFilesLocator LocatorFixtures.

Lemma in_remove_dups (file : Path) (l : list Path) :
  In file (remove_dups l) <-> In file l.
Proof. rewrite <- !list_elem_of_In. apply elem_of_remove_dups. Qed.

Lemma found_is_prompt_file config workspaceFolders filesystem file :
  In file (findAllMatchingPromptFiles config workspaceFolders filesystem) ->
  isPromptFile file = true.
Proof.
  unfold findAllMatchingPromptFiles. rewrite in_remove_dups, in_flat_map.
  intros (location & _ & Hfile).
  unfold promptFilesMatching in Hfile. apply filter_In in Hfile as [_ Hfile].
  now apply andb_true_iff in Hfile as [_ Hfile].
Qed.

Lemma isPromptFile_ends_with file :
  isPromptFile file = true ->
  exists name, last file = Some name
               /\ ends_with PROMPT_FILE_EXTENSION name = true.
Proof.
  unfold isPromptFile. destruct (last file) as [name|]; [eauto | discriminate].
Qed.

(** C7: whatever the configuration, the workspace folders and the file
    system, every file that [findAllMatchingPromptFiles] returns has a
    name that ends in [.prompt.md], so that [readme.md] is never returned;
    for every setting of the wild card tests, enabled in the workspace of
    these tests, it returns the four prompt files of their file system,
    which holds [readme.md] too, and the patterns [**], [**/*] and
    [**/*.md] of these settings do match [readme.md]. *)
Theorem only_prompt_files_are_found :
  (forall config workspaceFolders filesystem file,
     In file (findAllMatchingPromptFiles config workspaceFolders filesystem) ->
     exists name, last file = Some name
                  /\ ends_with ".prompt.md" name = true)
  /\ (forall config workspaceFolders filesystem,
        ~ In readme
             (findAllMatchingPromptFiles config workspaceFolders filesystem))
  /\ Forall (fun setting =>
               findAllMatchingPromptFiles (enabled [setting]) workspace
                 wildcard_filesystem = wildcard_expected)
            wildcard_settings
  /\ In readme (files wildcard_filesystem)
  /\ Forall (fun setting =>
               In setting wildcard_settings
               /\ Forall (fun location => match_path location readme = true)
                         (toAbsoluteLocations workspace setting))
            ["**"; "**/*"; "**/*.md"].
Proof.
  split; [|split; [|split; [|split]]].
  - intros config workspaceFolders filesystem file Hfile.
    apply isPromptFile_ends_with. eapply found_is_prompt_file, Hfile.
  - intros config workspaceFolders filesystem Hreadme.
    apply found_is_prompt_file in Hreadme. vm_compute in Hreadme.
    discriminate Hreadme.
  - unfold wildcard_settings. repeat constructor; vm_compute; reflexivity.
  - vm_compute. tauto.
  - repeat constructor; vm_compute; tauto.
Qed.

Lemma lookup_entry_false key entries :
  In (key, false) entries -> ~ In (key, true) entries ->
  lookup_entry key entries = Some false.
Proof.
  intros Hfalse Htrue. unfold lookup_entry.
  assert (Hall : forall e,
            In e (List.filter (fun e => String.eqb (fst e) key) entries) ->
            e = (key, false)).
  { intros [k b] He. apply filter_In in He as [He Hk]. cbn in Hk.
    apply String.eqb_eq in Hk. subst k.
    destruct b; [contradiction | reflexivity]. }
  assert (Hin : In (key, false)
                  (List.filter (fun e => String.eqb (fst e) key) entries)).
  { apply filter_In. split; [exact Hfalse | apply String.eqb_refl]. }
  destruct (List.filter _ entries) as [|e l] using rev_ind; [destruct Hin|].
  rewrite last_snoc. cbn.
  rewrite (Hall e); [reflexivity | apply in_or_app; right; now left].
Qed.

Lemma lookup_entry_true key entries :
  In (key, true) entries -> ~ In (key, false) entries ->
  lookup_entry key entries = Some true.
Proof.
  intros Htrue Hfalse. unfold lookup_entry.
  assert (Hall : forall e,
            In e (List.filter (fun e => String.eqb (fst e) key) entries) ->
            e = (key, true)).
  { intros [k b] He. apply filter_In in He as [He Hk]. cbn in Hk.
    apply String.eqb_eq in Hk. subst k.
    destruct b; [reflexivity | contradiction]. }
  assert (Hin : In (key, true)
                  (List.filter (fun e => String.eqb (fst e) key) entries)).
  { apply filter_In. split; [exact Htrue | apply String.eqb_refl]. }
  destruct (List.filter _ entries) as [|e l] using rev_ind; [destruct Hin|].
  rewrite last_snoc. cbn.
  rewrite (Hall e); [reflexivity | apply in_or_app; right; now left].
Qed.

Lemma disabled_is_no_source path entries :
  In (path, false) entries -> ~ In (path, true) entries ->
  ~ In path (promptSourceFolders (ObjectValue entries)).
Proof.
  intros Hfalse Htrue Hin. unfold promptSourceFolders in Hin.
  apply in_app_or in Hin as [Hdefault|Hentry].
  - destruct (lookup_entry DEFAULT_SOURCE_FOLDER entries) as [[|]|] eqn:Hlookup;
      try (destruct Hdefault as [<-|[]];
           rewrite (lookup_entry_false _ _ Hfalse Htrue) in Hlookup;
           discriminate Hlookup).
    destruct Hdefault.
  - apply in_map_iff in Hentry as ([k b] & <- & He).
    apply filter_In in He as [He Hb]. cbn in *.
    apply andb_true_iff in Hb as [-> _]. contradiction.
Qed.

Lemma enabled_is_a_source path entries :
  In (path, true) entries -> ~ In (path, false) entries ->
  In path (promptSourceFolders (ObjectValue entries)).
Proof.
  intros Htrue Hfalse. unfold promptSourceFolders. apply in_or_app.
  destruct (String.eqb path DEFAULT_SOURCE_FOLDER) eqn:Hdefault.
  - left. apply String.eqb_eq in Hdefault. subst path.
    rewrite (lookup_entry_true _ _ Htrue Hfalse). now left.
  - right. apply in_map_iff. exists (path, true). split; [reflexivity|].
    apply filter_In. split; [exact Htrue|]. cbn. now rewrite Hdefault.
Qed.

(** C8: a path that the configuration object maps to [false] is no
    source folder; every file of [listFiles] lies in the folder of a
    source folder, so that the files of a folder no source folder locates
    are not listed, though they are prompt files on disk; the prompt
    files in the folder of a path mapped to [true] are listed; and on the
    two configurations of the tests, [listFiles] gives the files the
    tests expect, without those of [/absolute/path/prompts] and of the
    disabled [.github/prompts]. *)
Theorem disabled_location_contributes_nothing :
  (forall entries path,
     In (path, false) entries -> ~ In (path, true) entries ->
     ~ In path (promptSourceFolders (ObjectValue entries)))
  /\ (forall config workspaceFolders filesystem file,
        In file (listFiles config workspaceFolders filesystem) ->
        exists source location,
          In source (promptSourceFolders config)
          /\ In location (toAbsoluteLocations workspaceFolders source)
          /\ In file (promptFilesIn filesystem location))
  /\ (forall entries workspaceFolders filesystem path location file,
        In (path, true) entries -> ~ In (path, false) entries ->
        In location (toAbsoluteLocations workspaceFolders path) ->
        In file (promptFilesIn filesystem location) ->
        In file (listFiles (ObjectValue entries) workspaceFolders filesystem))
  /\ (listFiles core_config [] outside_folders = outside_expected
      /\ promptFilesIn outside_folders (createURI "/absolute/path/prompts")
         = [createURI "/absolute/path/prompts/some-prompt-file.prompt.md"]
      /\ ~ In (createURI "/absolute/path/prompts/some-prompt-file.prompt.md")
              outside_expected)
  /\ (listFiles disabled_config workspace disabled_filesystem
      = disabled_expected
      /\ promptFilesIn disabled_filesystem
           (createURI "/Users/legomushroom/repos/vscode/.github/prompts")
         = [ createURI "/Users/legomushroom/repos/vscode/.github/prompts/my.prompt.md";
             createURI "/Users/legomushroom/repos/vscode/.github/prompts/your.prompt.md" ]
      /\ Forall (fun file => ~ In file disabled_expected)
           (promptFilesIn disabled_filesystem
              (createURI "/Users/legomushroom/repos/vscode/.github/prompts"))).
Proof.
  split; [|split; [|split; [|split]]].
  - intros entries path. apply disabled_is_no_source.
  - intros config workspaceFolders filesystem file Hfile.
    unfold listFiles, locations in Hfile.
    rewrite in_remove_dups, in_flat_map in Hfile.
    destruct Hfile as (location & Hlocation & Hfile).
    apply in_flat_map in Hlocation as (source & Hsource & Hlocation).
    now exists source, location.
  - intros entries workspaceFolders filesystem path location file
           Htrue Hfalse Hlocation Hfile.
    unfold listFiles, locations. rewrite in_remove_dups, in_flat_map.
    exists location. split; [|exact Hfile].
    apply in_flat_map. exists path. split; [|exact Hlocation].
    now apply enabled_is_a_source.
  - split; [vm_compute; reflexivity|]. split; [vm_compute; reflexivity|].
    vm_compute. intros H. repeat destruct H as [H|H]; try discriminate H.
    exact H.
  - split; [vm_compute; reflexivity|]. split; [vm_compute; reflexivity|].
    repeat constructor; vm_compute; intros H;
      repeat destruct H as [H|H]; try discriminate H; exact H.
Qed.

(** The model of the locator gives what the other tests of its
    test-suite expect. *)
Lemma locator_agrees_with_the_tests :
  forallb (fun setting =>
             paths_eqb (findAllMatchingPromptFiles (enabled [absolute setting])
                          workspace wildcard_filesystem)
                       wildcard_expected)
          wildcard_settings = true
  /\ forallb (fun settings =>
                paths_eqb (findAllMatchingPromptFiles (enabled settings)
                             workspace specific_filesystem)
                          specific_expected
                && paths_eqb (findAllMatchingPromptFiles
                                (enabled (List.map absolute settings))
                                workspace specific_filesystem)
                             specific_expected)
             specific_settings = true
  /\ listFiles core_config workspace core_filesystem = core_expected
  /\ Forall (fun config => listFiles config [] [] = [])
            [ Undefined; Null; StringValue "/etc/hosts/prompts";
              ArrayValue ["relative/path/to/prompts/"; "/abs/path"];
              ObjectValue [ ("/Users/legomushroom/repos/prompts/", true);
                            ("/tmp/prompts/", false) ] ].
Proof.
  repeat split; try (vm_compute; reflexivity).
  repeat constructor.
Qed.

End LocatorSpec.

(** ** More of the configuration resolver service *)

Module ResolverMore.
Import ConfigurationResolver.

Section Facts.
Context {any : Type}.
Variable unresolved : any -> list Replacement.
Variable JSON_stringify : list (string * string) -> string.
Variable JSON_parse : string -> option (list (string * string)).
Variable host : Host any.

Local Abbreviation resolveVariable := (resolveVariable JSON_stringify JSON_parse).
Local Abbreviation resolveVariables := (resolveVariables JSON_stringify JSON_parse).
Local Abbreviation resolveWithInteraction :=
  (resolveWithInteraction unresolved JSON_stringify JSON_parse).
Local Abbreviation resolveWithInteractionReplace :=
  (resolveWithInteractionReplace unresolved JSON_stringify JSON_parse).
Local Abbreviation showUserInput := (showUserInput JSON_stringify JSON_parse).
Local Abbreviation readInputLru := (readInputLru (any := any) JSON_parse).

(** *** What one call of [showUserInput] does *)

(** The four ways a call of [showUserInput] can go: it throws before it
    reads the cache; it reads the cache and throws; it reads the cache and
    queues one prompt, without storing; or it reads the cache, queues one
    prompt and stores the cache with the answer as newest entry. *)
Lemma showUserInput_cases section variable inputInfos w :
  let result := run host (showUserInput section variable inputInfos) w in
  let read := logged (StorageGet LAST_INPUT_STORAGE_KEY WORKSPACE) in
  (exists e, result = (Rejected e, w))
  \/ (exists e,
        result = (Rejected e,
                  {| storage := storage w; log := (log w ++ [read])%list |}))
  \/ (exists (X : Type) (c : Call any X) r,
        is_prompt c = true
        /\ result = (r, {| storage := storage w;
                           log := ((log w ++ [read])
                                   ++ [logged (Queue_queue c)])%list |}))
  \/ (exists (X : Type) (c : Call any X) text lru,
        is_prompt c = true
        /\ LRUCache.size lru <= LAST_INPUT_CACHE_SIZE
        /\ last (LRUCache.toJSON lru) = Some (section ++ "." ++ variable, text)
        /\ result =
           (Ok (JsString text),
            {| storage :=
                 storage_store (storage w) LAST_INPUT_STORAGE_KEY
                   (JSON_stringify (LRUCache.toJSON lru)) WORKSPACE;
               log := (((log w ++ [read]) ++ [logged (Queue_queue c)])
                       ++ [logged (StorageStore LAST_INPUT_STORAGE_KEY
                                     (JSON_stringify (LRUCache.toJSON lru))
                                     WORKSPACE MACHINE)])%list |})).
Proof.
  intros result read. subst result.
  unfold ConfigurationResolver.showUserInput.
  destruct inputInfos as [inputInfos|]; [|left; eexists; reflexivity].
  destruct (info_of variable inputInfos) as [info|];
    [|left; eexists; reflexivity].
  rewrite ResolverSpec.run_bind.
  pose proof (ResolverSpec.readInputLru_limit (any := any) JSON_parse
                (storage_get (storage w) LAST_INPUT_STORAGE_KEY WORKSPACE))
    as Hlimit.
  unfold ConfigurationResolver.readInputLru in *.
  cbn [bind call run perform every_return] in *.
  destruct Hlimit as [Hlimit _].
  match goal with
  | |- context [LRUCache.get ?lru ?key] =>
      pose proof (LRUCacheFacts.limit_get lru key) as Hget;
      destruct (LRUCache.get lru key) as [previous defaultValueMap]
  end.
  cbn [snd] in Hget. rewrite Hlimit in Hget.
  assert (Hstored : forall text,
            LRUCache.size (LRUCache.set defaultValueMap
                             (section ++ "." ++ variable) text)
            <= LAST_INPUT_CACHE_SIZE
            /\ last (LRUCache.toJSON
                       (LRUCache.set defaultValueMap
                          (section ++ "." ++ variable) text))
               = Some (section ++ "." ++ variable, text)).
  { intros text. split.
    - rewrite <- Hget. apply LRUCacheFacts.size_set.
    - apply LRUCacheFacts.last_set. rewrite Hget. cbv; lia. }
  destruct (String.eqb (type info) "promptString").
  { destruct (negb (is_some (description info)));
      [right; left; eexists; reflexivity|].
    cbn [run bind call perform].
    match goal with
    | |- context [host_input host ?l ?o] =>
        destruct (host_input host l o) as [text|]
    end.
    - do 3 right. destruct (Hstored text) as [Hsize Hlast].
      eexists _, (QuickInput _), text, _.
      split; [reflexivity|]. split; [exact Hsize|]. split; [exact Hlast|].
      reflexivity.
    - right; right; left. eexists _, (QuickInput _), _.
      split; reflexivity. }
  destruct (String.eqb (type info) "pickString").
  { destruct (negb (is_some (description info)));
      [right; left; eexists; reflexivity|].
    destruct (options info) as [pickOptions|];
      [|right; left; eexists; reflexivity].
    destruct (negb (forallb pickOption_ok pickOptions));
      [right; left; eexists; reflexivity|].
    cbn [run bind call perform].
    match goal with
    | |- context [host_pick host ?l ?p ?o] =>
        destruct (host_pick host l p o) as [item|]
    end.
    - do 3 right. destruct (Hstored (item_value item)) as [Hsize Hlast].
      eexists _, (QuickPick _ _), (item_value item), _.
      split; [reflexivity|]. split; [exact Hsize|]. split; [exact Hlast|].
      reflexivity.
    - right; right; left. eexists _, (QuickPick _ _), _.
      split; reflexivity. }
  destruct (String.eqb (type info) "command");
    [|right; left; eexists; reflexivity].
  destruct (command info) as [commandId|];
    [|right; left; eexists; reflexivity].
  cbn [run bind call perform].
  right; right; left.
  match goal with
  | |- context [host_executeCommand host ?l ?c ?a] =>
      destruct (host_executeCommand host l c a) as [[text| | |]|e]
  end; eexists _, (ExecuteCommand _ _), _; split; reflexivity.
Qed.

Lemma storage_get_store_other st key value key' scope' :
  key' <> key \/ scope' <> WORKSPACE ->
  storage_get (storage_store st key value WORKSPACE) key' scope'
  = storage_get st key' scope'.
Proof.
  intros Hother. destruct scope'; cbn; try reflexivity.
  destruct Hother as [Hkey|Hscope]; [|contradiction].
  apply lookup_insert_ne. congruence.
Qed.


(** X2: a call of [showUserInput] makes at most three calls, in this
    order: it reads the cache from the storage, it gives one prompt to the
    queue, and it stores the cache; it never prompts twice, never prompts
    before the cache is read, and never stores without a prompt. *)
Theorem showUserInput_makes_at_most_one_prompt section variable inputInfos w :
  let read := logged (StorageGet LAST_INPUT_STORAGE_KEY WORKSPACE) in
  exists new,
    log (snd (run host (showUserInput section variable inputInfos) w))
    = (log w ++ new)%list
    /\ (new = []
        \/ new = [read]
        \/ (exists (X : Type) (c : Call any X),
              is_prompt c = true /\ new = [read; logged (Queue_queue c)])
        \/ (exists (X : Type) (c : Call any X) value,
              is_prompt c = true
              /\ new = [ read; logged (Queue_queue c);
                         logged (StorageStore LAST_INPUT_STORAGE_KEY value
                                   WORKSPACE MACHINE) ])).
Proof.
  intros read.
  destruct (showUserInput_cases section variable inputInfos w)
    as [[e ->]|[[e ->]|[(X & c & r & Hprompt & ->)
                       |(X & c & text & lru & Hprompt & _ & _ & ->)]]];
    cbn [snd log].
  - exists []. split; [now rewrite app_nil_r | now left].
  - exists [read]. split; [reflexivity | right; now left].
  - exists [read; logged (Queue_queue c)]. split.
    + now rewrite <- app_assoc.
    + right; right; left. now exists X, c.
  - eexists [read; logged (Queue_queue c); _]. split.
    + now rewrite <- !app_assoc.
    + do 3 right. now exists X, c, (JSON_stringify (LRUCache.toJSON lru)).
Qed.

(** *** The picks of a [pickString] *)

Lemma picks_snoc (info : ConfiguredInput any) previous options pickOption :
  fold_left (addPick info previous) (options ++ [pickOption]) []
  = addPick info previous (fold_left (addPick info previous) options [])
      pickOption.
Proof. now rewrite fold_left_app. Qed.

(** What one round of the loop adds: the item of the option, in front or
    at the end. *)
Lemma addPick_cases (info : ConfiguredInput any) previous picks pickOption :
  exists item,
    item_value item = pickOption_value pickOption
    /\ item_description item
       = (if strict_eqb (Some (pickOption_value pickOption)) (default info)
          then Some "(Default)" else None)
    /\ (addPick info previous picks pickOption
        = if strict_eqb (Some (pickOption_value pickOption)) (default info)
             || negb (truthy (default info))
                && strict_eqb (Some (pickOption_value pickOption)) previous
          then item :: picks
          else (picks ++ [item])%list).
Proof.
  unfold addPick.
  destruct (strict_eqb (Some (pickOption_value pickOption)) (default info)).
  - eexists. split; [|split]. 3: reflexivity. all: reflexivity.
  - destruct (negb (truthy (default info))
              && strict_eqb (Some (pickOption_value pickOption)) previous);
      (eexists; split; [|split]; [ | |reflexivity]; reflexivity).
Qed.

(** X3: the picks of a [pickString] are its options, each exactly once:
    there are as many picks as options, their values are the values of the
    options up to the order, and a pick is marked [(Default)] exactly when
    its value is the [default] of the input. *)
Theorem picks_are_the_options (info : ConfiguredInput any) previous options :
  let picks := fold_left (addPick info previous) options [] in
  length picks = length options
  /\ Permutation (List.map item_value picks)
                 (List.map pickOption_value options)
  /\ Forall (fun item =>
               item_description item
               = if strict_eqb (Some (item_value item)) (default info)
                 then Some "(Default)" else None)
            picks.
Proof.
  induction options as [|pickOption options IH] using rev_ind; cbn zeta.
  - repeat split; constructor.
  - rewrite picks_snoc. cbn zeta in IH. destruct IH as (Hlength & Hperm & Hmark).
    destruct (addPick_cases info previous
                (fold_left (addPick info previous) options []) pickOption)
      as (item & Hvalue & Hdescription & ->).
    rewrite <- Hvalue in Hdescription.
    rewrite List.map_app, length_app. cbn [List.map length].
    destruct (_ || _).
    + cbn [length List.map]. split; [lia|]. split.
      * rewrite Hvalue. rewrite <- Permutation_cons_append.
        now apply Permutation_cons.
      * now constructor.
    + rewrite length_app, List.map_app. cbn [length List.map].
      split; [lia|]. split.
      * rewrite Hvalue. now apply Permutation_app_tail.
      * apply Forall_app. split; [exact Hmark | now constructor].
Qed.

(** X4: when the input has a non-empty [default] and an option of that
    value, the first pick is that option, marked [(Default)]. *)
Theorem default_is_the_first_pick (info : ConfiguredInput any) previous
    options value :
  default info = Some value ->
  value <> EmptyString ->
  In value (List.map pickOption_value options) ->
  exists item rest,
    fold_left (addPick info previous) options [] = item :: rest
    /\ item_value item = value
    /\ item_description item = Some "(Default)".
Proof.
  intros Hdefault Hnonempty.
  assert (Htruthy : truthy (default info) = true).
  { rewrite Hdefault. cbn. destruct (String.eqb value EmptyString) eqn:Hempty;
      [apply String.eqb_eq in Hempty; contradiction | reflexivity]. }
  induction options as [|pickOption options IH] using rev_ind;
    [intros []|].
  rewrite List.map_app, in_app_iff. cbn [List.map In]. intros Hin.
  rewrite picks_snoc.
  destruct (addPick_cases info previous
              (fold_left (addPick info previous) options []) pickOption)
    as (item & Hvalue & Hdescription & ->).
  rewrite Htruthy, Hdefault in *. cbn [negb andb] in *. rewrite orb_false_r.
  cbn [strict_eqb] in *.
  destruct (String.eqb (pickOption_value pickOption) value) eqn:Hsame.
  - apply String.eqb_eq in Hsame. exists item, (fold_left (addPick info previous) options []).
    repeat split; congruence.
  - destruct Hin as [Hin|[Hin|[]]];
      [|apply String.eqb_neq in Hsame; contradiction].
    destruct (IH Hin) as (first & rest & -> & Hfirst & Hmark).
    exists first, (rest ++ [item])%list. repeat split; assumption.
Qed.

(** X5: when the input has no [default], and the value picked last time is
    the value of an option, the first pick is that option. *)
Theorem last_picked_is_the_first_pick (info : ConfiguredInput any) options
    value :
  default info = None ->
  In value (List.map pickOption_value options) ->
  exists item rest,
    fold_left (addPick info (Some value)) options [] = item :: rest
    /\ item_value item = value
    /\ item_description item = None.
Proof.
  intros Hdefault.
  induction options as [|pickOption options IH] using rev_ind;
    [intros []|].
  rewrite List.map_app, in_app_iff. cbn [List.map In]. intros Hin.
  rewrite picks_snoc.
  destruct (addPick_cases info (Some value)
              (fold_left (addPick info (Some value)) options []) pickOption)
    as (item & Hvalue & Hdescription & ->).
  rewrite Hdefault in *. cbn [strict_eqb truthy negb andb orb] in *.
  destruct (String.eqb (pickOption_value pickOption) value) eqn:Hsame.
  - apply String.eqb_eq in Hsame.
    exists item, (fold_left (addPick info (Some value)) options []).
    repeat split; congruence.
  - destruct Hin as [Hin|[Hin|[]]];
      [|apply String.eqb_neq in Hsame; contradiction].
    destruct (IH Hin) as (first & rest & -> & Hfirst & Hmark).
    exists first, (rest ++ [item])%list. repeat split; assumption.
Qed.

(** X6: when no option has the value of the [default], nor (for an input
    without non-empty default) the value picked last time, the picks are
    the options in their order, and none is marked. *)
Theorem picks_keep_the_order (info : ConfiguredInput any) previous options :
  Forall (fun pickOption =>
            strict_eqb (Some (pickOption_value pickOption)) (default info)
            = false
            /\ (truthy (default info) = true
                \/ strict_eqb (Some (pickOption_value pickOption)) previous
                   = false))
         options ->
  let picks := fold_left (addPick info previous) options [] in
  List.map item_value picks = List.map pickOption_value options
  /\ Forall (fun item => item_description item = None) picks.
Proof.
  induction options as [|pickOption options IH] using rev_ind; cbn zeta;
    intros Hnone.
  - split; constructor.
  - apply Forall_app in Hnone as [Hoptions Hlast].
    apply Forall_inv in Hlast as [Hdefault Hprevious].
    destruct (IH Hoptions) as [Hvalues Hmarks].
    rewrite picks_snoc.
    destruct (addPick_cases info previous
                (fold_left (addPick info previous) options []) pickOption)
      as (item & Hvalue & Hdescription & ->).
    rewrite Hdefault in *. cbn [orb].
    assert (negb (truthy (default info))
            && strict_eqb (Some (pickOption_value pickOption)) previous
            = false) as ->.
    { destruct Hprevious as [-> | ->]; [reflexivity | apply andb_false_r]. }
    rewrite !List.map_app. cbn [List.map]. rewrite Hvalues, Hvalue.
    split; [reflexivity|].
    apply Forall_app. split; [exact Hmarks | now constructor].
Qed.

(** *** The prompt of a [pickString] and the command of a [command] *)

(** X7: a well-formed [pickString] gives the quick pick, through the
    queue, the picks built from its options and the value of the key
    [section.variable] in the cache read from the storage; when the user
    picks an item, the value of the item (not its label) is stored as
    newest entry for the key and returned; when the pick is cancelled,
    the result is [undefined] and nothing is stored. *)
Theorem pickString_pick_and_write_back section variable inputInfos info
    pickOptions w lru w1 :
  info_of variable inputInfos = Some info ->
  type info = "pickString" ->
  is_some (description info) = true ->
  options info = Some pickOptions ->
  forallb pickOption_ok pickOptions = true ->
  run host readInputLru w = (Ok lru, w1) ->
  let key := section ++ "." ++ variable in
  let picks :=
    fold_left (addPick info (LRUCache.peek lru key)) pickOptions [] in
  let options :=
    {| placeHolder := description info; matchOnDetail := true;
       pick_ignoreFocusLost := true |} in
  let w2 :=
    {| storage := storage w1;
       log := (log w1 ++ [logged (Queue_queue (QuickPick picks options))])%list |}
  in
  match host_pick host (log w1) picks options with
  | None =>
      run host (showUserInput section variable (Some inputInfos)) w
      = (Ok JsUndefined, w2)
  | Some item =>
      let lru' :=
        LRUCache.set (snd (LRUCache.get lru key)) key (item_value item) in
      let stored := JSON_stringify (LRUCache.toJSON lru') in
      run host (showUserInput section variable (Some inputInfos)) w
      = (Ok (JsString (item_value item)),
         {| storage :=
              storage_store (storage w2) LAST_INPUT_STORAGE_KEY stored
                WORKSPACE;
            log := (log w2 ++
                    [logged (StorageStore LAST_INPUT_STORAGE_KEY stored
                               WORKSPACE MACHINE)])%list |})
      /\ last (LRUCache.toJSON lru') = Some (key, item_value item)
  end.
Proof.
  intros Hinfo Htype Hdescription Hoptions Hok Hread key picks options w2.
  pose proof (ResolverSpec.run_every_return host _ _ _ _ _
                (ResolverSpec.readInputLru_limit JSON_parse) Hread)
    as [Hlimit _].
  assert (Hrun :
    run host (showUserInput section variable (Some inputInfos)) w
    = match host_pick host (log w1) picks options with
      | None => (Ok JsUndefined, w2)
      | Some item =>
          run host
            (bind (storeInputLru JSON_stringify
                     (LRUCache.set (snd (LRUCache.get lru key)) key
                        (item_value item)))
                  (fun _ => Ret (JsString (item_value item)))) w2
      end).
  { unfold ConfigurationResolver.showUserInput. rewrite Hinfo.
    rewrite ResolverSpec.run_bind, Hread. fold key.
    pose proof (LRUCacheFacts.fst_get lru key) as Hpeek.
    destruct (LRUCache.get lru key) as [previous defaultValueMap].
    cbn [fst snd] in *. subst previous.
    rewrite Htype, Hdescription, Hoptions, Hok.
    cbn [String.eqb Ascii.eqb Bool.eqb negb].
    rewrite ResolverSpec.run_bind. cbn [run call perform].
    fold picks. fold options. fold w2.
    destruct (host_pick host (log w1) picks options); reflexivity. }
  rewrite Hrun. clear Hrun.
  destruct (host_pick host (log w1) picks options) as [item|]; [|reflexivity].
  cbn zeta. split; [reflexivity|].
  apply LRUCacheFacts.last_set.
  rewrite LRUCacheFacts.limit_get, Hlimit. cbv; lia.
Qed.

(** X8: an input of type [command] with a command executes it, through
    the queue, with the [args] of the input, after the cache was read; a
    string, [undefined] or [null] result is the result of the input, any
    other result is a [VariableError] of kind [Input], a rejection of the
    command is passed on; the storage is never written. *)
Theorem command_input_executes_its_command section variable inputInfos info
    commandId w :
  info_of variable inputInfos = Some info ->
  type info = "command" ->
  command info = Some commandId ->
  let w1 :=
    {| storage := storage w;
       log := (log w ++
               [logged (StorageGet LAST_INPUT_STORAGE_KEY WORKSPACE)])%list |}
  in
  let w2 :=
    {| storage := storage w;
       log := (log w1 ++
               [logged (Queue_queue (ExecuteCommand commandId (args info)))])%list
    |} in
  exists message,
    run host (showUserInput section variable (Some inputInfos)) w
    = (match host_executeCommand host (log w1) commandId (args info) with
       | Ok (CmdString text) => Ok (JsString text)
       | Ok CmdUndefined => Ok JsUndefined
       | Ok CmdNull => Ok JsNull
       | Ok CmdOther => Rejected (VariableError Input message)
       | Rejected e => Rejected e
       end, w2).
Proof.
  intros Hinfo Htype Hcommand w1 w2.
  unfold ConfigurationResolver.showUserInput. rewrite Hinfo.
  rewrite ResolverSpec.run_bind.
  unfold ConfigurationResolver.readInputLru. cbn [bind call run perform].
  fold w1.
  match goal with
  | |- context [LRUCache.get ?c ?k] =>
      destruct (LRUCache.get c k) as [previous defaultValueMap]
  end.
  rewrite Htype, Hcommand. cbn [String.eqb Ascii.eqb Bool.eqb].
  cbn [run perform]. fold w2.
  exists (Nls.localize "inputVariable.command.noStringType"
            "Cannot substitute input variable '{0}' because command '{1}' did not return a result of type string."
            [variable; commandId]).
  destruct (host_executeCommand host (log w1) commandId (args info))
    as [[text| | |]|e]; reflexivity.
Qed.

(** *** Command variables *)

(** X9: a [${command:arg}] variable executes, directly and with the
    configuration as argument, what [variableToCommandMap[arg] || arg]
    gives: the own entry of the map for [arg] when it is not empty; [arg]
    itself when there is no map, or the own entry is empty, or there is
    no own entry and [arg] names no member of [Object.prototype]; and,
    when there is no own entry and [arg] names a member that the map
    inherits from [Object.prototype] (as [constructor] or [toString]),
    that member, which is no string.  A string, [undefined] or [null]
    result is the result for the variable, any other result is a
    [VariableError] of kind [Command], and a rejection of the command is
    passed on. *)
Theorem command_variable_executes_the_mapped_command folder config section
    commands target variable w :
  var_type variable = "command" ->
  let arg := var_arg variable in
  let commandId :=
    match commands with
    | Some map =>
        match map !! arg with
        | Some mapped =>
            CommandName (if String.eqb mapped EmptyString then arg else mapped)
        | None =>
            if decide (arg ∈ Object_prototype) then InheritedMember arg
            else CommandName arg
        end
    | None => CommandName arg
    end in
  exists message,
    run host (resolveVariable folder config section commands target variable) w
    = (match host_executeCommand host (log w) commandId config with
       | Ok (CmdString text) => Ok (JsString text)
       | Ok CmdUndefined => Ok JsUndefined
       | Ok CmdNull => Ok JsNull
       | Ok CmdOther => Rejected (VariableError Command message)
       | Rejected e => Rejected e
       end,
       {| storage := storage w;
          log := (log w ++ [logged (ExecuteCommand commandId config)])%list |}).
Proof.
  intros Htype arg commandId.
  unfold ConfigurationResolver.resolveVariable. rewrite Htype.
  cbn [String.eqb Ascii.eqb Bool.eqb bind call run perform].
  assert (commandId_of commands (var_arg variable) = commandId) as ->.
  { unfold commandId_of, property_of, or_else, commandId, arg.
    destruct commands as [map|]; [|reflexivity].
    destruct (map !! var_arg variable); [reflexivity|].
    destruct (existsb (String.eqb (var_arg variable)) Object_prototype)
      eqn:Hmember.
    - apply existsb_exists in Hmember as (key & Hin & Hkey).
      apply String.eqb_eq in Hkey. subst key.
      apply list_elem_of_In in Hin. now rewrite decide_True.
    - rewrite decide_False; [reflexivity|].
      intros Hin. apply list_elem_of_In in Hin.
      apply not_true_iff_false in Hmember. apply Hmember.
      apply existsb_exists. exists (var_arg variable).
      split; [exact Hin | apply String.eqb_refl]. }
  exists (Nls.localize "commandVariable.noStringType"
            "Cannot substitute command variable '{0}' because command did not return a result of type string."
            (localize_arguments commandId)).
  destruct (host_executeCommand host (log w) commandId config)
    as [[text| | |]|e]; reflexivity.
Qed.

(** X10: only [undefined] cancels the resolution.  A command variable
    whose command resolves to [null] is resolved to [null]: the loop puts
    [null] in the map under the key of the variable and goes on with the
    next variable. *)
Theorem null_is_a_value_not_a_cancellation folder config section commands
    target variable rest resolved w :
  var_type variable = "command" ->
  host_executeCommand host (log w)
    (commandId_of commands (var_arg variable)) config = Ok CmdNull ->
  run host (resolveVariables folder config section commands target
              (variable :: rest) resolved) w
  = run host (resolveVariables folder config section commands target rest
                (<["command:" ++ var_arg variable := JsNull]> resolved))
      {| storage := storage w;
         log := (log w ++
                 [logged (ExecuteCommand
                            (commandId_of commands (var_arg variable))
                            config)])%list |}.
Proof.
  intros Htype Hnull.
  rewrite ResolverSpec.run_resolveVariables_cons.
  unfold ConfigurationResolver.resolveVariable, variableKey. rewrite Htype.
  cbn [String.eqb Ascii.eqb Bool.eqb bind call run perform].
  rewrite Hnull. reflexivity.
Qed.

(** *** The map of resolved variables *)

Lemma size_list_to_set_le (keys : list string) :
  size (list_to_set keys : gset string) <= length keys.
Proof.
  induction keys as [|key keys IH].
  - now rewrite list_to_set_nil, size_empty.
  - rewrite list_to_set_cons, size_union_alt, size_singleton.
    assert (list_to_set keys ∖ {[key]} ⊆ (list_to_set keys : gset string))
      as Hsub by apply subseteq_difference_l, reflexivity.
    apply subseteq_size in Hsub. cbn [length]. lia.
Qed.

Lemma resolveVariables_dom folder config section commands target variables
    resolved w resolved' w' :
  run host (resolveVariables folder config section commands target
              variables resolved) w = (Ok (Some resolved'), w') ->
  dom resolved'
  = dom resolved ∪ list_to_set (List.map variableKey variables)
  /\ ((forall key, resolved !! key <> Some JsUndefined) ->
      forall key, resolved' !! key <> Some JsUndefined).
Proof.
  revert resolved w.
  induction variables as [|variable rest IH]; intros resolved w Hrun.
  - cbn in Hrun. injection Hrun as <- <-. split; [|auto].
    cbn [List.map]. now rewrite list_to_set_nil, (right_id_L ∅ (∪)).
  - rewrite ResolverSpec.run_resolveVariables_cons in Hrun.
    destruct (run host (resolveVariable _ _ _ _ _ variable) w)
      as [[[text| |]|e] w1]; try discriminate Hrun;
      apply IH in Hrun as [Hdom Hdefined]; (split;
        [ rewrite Hdom, dom_insert_L; cbn [List.map];
          rewrite list_to_set_cons, (assoc_L (∪)),
            (comm_L (∪) (dom resolved)); reflexivity
        | intros Hresolved; apply Hdefined; intros key;
          destruct (decide (variableKey variable = key)) as [<-|Hne];
          [ rewrite lookup_insert_eq; discriminate
          | rewrite lookup_insert_ne by exact Hne; apply Hresolved ] ]).
Qed.

(** X11: the map that [resolveWithInteraction] returns has exactly the
    keys of the input and command variables of the configuration,
    [input:arg] or [command:arg], no value in it is [undefined], and it
    has at most as many entries as there are such variables. *)
Theorem resolved_map_has_the_keys_of_the_variables folder config section
    commands target w resolved w' :
  run host (resolveWithInteraction folder config section commands target) w
  = (Ok (Some resolved), w') ->
  let variables := collectVariables (unresolved config) in
  dom resolved = list_to_set (List.map variableKey variables)
  /\ (forall key, resolved !! key <> Some JsUndefined)
  /\ size resolved <= length variables
  /\ Forall (fun variable =>
               variableKey variable = "input:" ++ var_arg variable
               \/ variableKey variable = "command:" ++ var_arg variable)
            variables.
Proof.
  intros Hrun variables.
  rewrite ResolverSpec.resolveWithInteraction_is_loop in Hrun.
  apply resolveVariables_dom in Hrun as [Hdom Hdefined].
  rewrite dom_empty_L, (left_id_L ∅ (∪)) in Hdom.
  split; [exact Hdom|]. split.
  { apply Hdefined. intros key. rewrite lookup_empty. discriminate. }
  split.
  - rewrite <- size_dom, Hdom.
    rewrite <- (length_map variableKey variables).
    apply size_list_to_set_le.
  - apply Forall_forall. intros variable _. unfold variableKey.
    destruct (String.eqb (var_type variable) "command"); auto.
Qed.

(** X12: a configuration whose unresolved replacements are all of other
    kinds than [input] and [command] (for example [env] or [config]) is
    resolved without any call: [resolveWithInteraction] returns the empty
    map in the world as it was. *)
Theorem other_variables_are_not_prompted_for folder config section commands
    target w :
  Forall (fun replacement =>
            name replacement <> "input" /\ name replacement <> "command")
         (unresolved config) ->
  run host (resolveWithInteraction folder config section commands target) w
  = (Ok (Some ∅), w).
Proof.
  intros Hother. rewrite ResolverSpec.resolveWithInteraction_is_loop.
  assert (collectVariables (unresolved config) = []) as ->; [|reflexivity].
  unfold collectVariables.
  induction Hother as [|replacement rest [Hinput Hcommand] _ IH];
    [reflexivity|].
  cbn [List.filter]. unfold is_input_or_command at 1.
  apply String.eqb_neq in Hinput, Hcommand. rewrite Hinput, Hcommand.
  exact IH.
Qed.

(** *** What a whole resolution writes *)

Local Abbreviation stores_bounded_cache :=
  (fun X => @stores_bounded_cache any JSON_stringify X).

Ltac silent_calls :=
  repeat match goal with
    | |- every_call _ (match ?x with _ => _ end) => destruct x
    | |- every_call _ (if ?b then _ else _) => destruct b
    | |- every_call _ (bind _ _) =>
        apply ResolverSpec.every_call_bind; [|intros ?]
    | |- every_call _ (call _) => cbn; split; [exact I | intros ?; exact I]
    | |- every_call _ (Ret _) => exact I
    | |- every_call _ (Throw _) => exact I
    end.

Lemma resolveInputs_stores_nothing folder section target :
  every_call stores_bounded_cache (resolveInputs folder section target).
Proof. unfold ConfigurationResolver.resolveInputs. silent_calls. Qed.

Lemma resolveVariable_stores_bounded folder config section commands target
    variable :
  every_call stores_bounded_cache
    (resolveVariable folder config section commands target variable).
Proof.
  unfold ConfigurationResolver.resolveVariable.
  destruct (String.eqb (var_type variable) "command"); [silent_calls|].
  destruct (String.eqb (var_type variable) "input"); [|exact I].
  apply ResolverSpec.every_call_bind;
    [apply resolveInputs_stores_nothing|].
  intros inputInfos. apply ResolverSpec.showUserInput_stores_bounded.
Qed.

Lemma resolveVariables_stores_bounded folder config section commands target
    variables resolved :
  every_call stores_bounded_cache
    (resolveVariables folder config section commands target variables
       resolved).
Proof.
  revert resolved. induction variables as [|variable rest IH];
    intros resolved; [exact I|].
  cbn [ConfigurationResolver.resolveVariables].
  apply ResolverSpec.every_call_bind;
    [apply resolveVariable_stores_bounded|].
  intros [text| |]; [apply IH | apply IH | exact I].
Qed.

Lemma resolveWithInteractionReplace_stores_bounded folder config section
    commands target :
  every_call stores_bounded_cache
    (resolveWithInteractionReplace folder config section commands target).
Proof.
  unfold ConfigurationResolver.resolveWithInteractionReplace.
  apply ResolverSpec.every_call_bind;
    [cbn; split; [exact I | intros ?; exact I]|].
  intros config1. apply ResolverSpec.every_call_bind.
  - rewrite ResolverSpec.resolveWithInteraction_is_loop.
    apply resolveVariables_stores_bounded.
  - intros [resolved|]; [|exact I].
    destruct (Nat.ltb 0 (size resolved)); [|exact I]. silent_calls.
Qed.

Lemma perform_frame {X : Type} (c : Call any X) (w : World any) key scope :
  stores_bounded_cache X c ->
  key <> LAST_INPUT_STORAGE_KEY \/ scope <> WORKSPACE ->
  storage_get (snd (perform host w c)) key scope
  = storage_get (storage w) key scope.
Proof.
  intros Hc Hother. induction c; cbn in *; auto.
  destruct Hc as (-> & -> & _). now apply storage_get_store_other.
Qed.

Lemma run_frame {A : Type} (p : Prog any A) (w : World any) key scope :
  every_call stores_bounded_cache p ->
  key <> LAST_INPUT_STORAGE_KEY \/ scope <> WORKSPACE ->
  storage_get (storage (snd (run host p w))) key scope
  = storage_get (storage w) key scope.
Proof.
  intros Hp Hother. revert w Hp.
  induction p as [a|e|X c k IH]; intros w Hp; cbn; try reflexivity.
  destruct Hp as [Hc Hk].
  pose proof (perform_frame c w key scope Hc Hother) as Hperform.
  destruct (perform host w c) as [[x|e] st]; cbn in *; [|exact Hperform].
  rewrite (IH x {| storage := st; log := (log w ++ [logged c])%list |} (Hk x)).
  exact Hperform.
Qed.

(** X13: whatever the host answers, a whole [resolveWithInteractionReplace]
    writes nothing but the cache of last inputs: every other key and scope
    of the storage is as it was, and the storage is unchanged or holds,
    under [configResolveInputLru] in the workspace scope, a cache of at
    most [LAST_INPUT_CACHE_SIZE] entries. *)
Theorem resolution_writes_only_the_cache folder config section commands
    target w :
  let w' :=
    snd (run host (resolveWithInteractionReplace folder config section
                     commands target) w) in
  (forall key scope,
     key <> LAST_INPUT_STORAGE_KEY \/ scope <> WORKSPACE ->
     storage_get (storage w') key scope = storage_get (storage w) key scope)
  /\ (storage w' = storage w
      \/ exists data : list (string * string),
           storage_get (storage w') LAST_INPUT_STORAGE_KEY WORKSPACE
           = Some (JSON_stringify data)
           /\ length data <= LAST_INPUT_CACHE_SIZE).
Proof.
  intros w'. subst w'. split.
  - intros key scope Hother. apply run_frame; [|exact Hother].
    apply resolveWithInteractionReplace_stores_bounded.
  - apply (ResolverSpec.run_bounded JSON_stringify host).
    apply resolveWithInteractionReplace_stores_bounded.
Qed.

(** *** Inputs of the user settings *)

(** X14: the inputs are taken from the scope that [target] names, and
    from the workspace folder when no target is given.  So with a folder
    open, a section name, no target, and inputs that [inspect] reports
    only as user value, [resolveInputs] finds no inputs, without asking
    [getValue], and an input variable is rejected with a [VariableError]
    of kind [Input]. *)
Theorem user_inputs_need_the_user_target folder config section commands
    variable w inspected userInputs :
  truthy section = true ->
  host_getWorkbenchState host (log w) <> EMPTY ->
  host_inspect host
    (log w ++ [logged GetWorkbenchState])%list (template section)
    (uri <$> folder) = Some inspected ->
  userValue inspected = Some userInputs ->
  workspaceFolderValue inspected = None ->
  var_type variable = "input" ->
  let w' :=
    {| storage := storage w;
       log := ((log w ++ [logged GetWorkbenchState])
               ++ [logged (Inspect (template section) (uri <$> folder))])%list
    |} in
  run host (resolveInputs folder section None) w = (Ok None, w')
  /\ exists message,
       run host (resolveVariable folder config section commands None
                   variable) w
       = (Rejected (VariableError Input message), w').
Proof.
  intros Hsection Hstate Hinspect Huser Hfolder Htype w'.
  assert (Hinputs : run host (resolveInputs folder section None) w
                    = (Ok None, w')).
  { unfold ConfigurationResolver.resolveInputs.
    cbn [bind call run perform]. rewrite Hsection.
    destruct (host_getWorkbenchState host (log w)); [contradiction| |];
      cbn [negb orb bind call run perform log]; rewrite Hinspect, Huser, Hfolder;
      reflexivity. }
  split; [exact Hinputs|].
  unfold ConfigurationResolver.resolveVariable. rewrite Htype.
  cbn [String.eqb Ascii.eqb Bool.eqb].
  rewrite ResolverSpec.run_bind, Hinputs.
  eexists. reflexivity.
Qed.

End Facts.
End ResolverMore.

(** ** The context callbacks *)

Module ContextFacts.
Import ConfigurationResolver ResolverContext.

(** *** [filter(...).pop()] *)

Lemma filter_nil_iff {A : Type} (p : A -> bool) (l : list A) :
  List.filter p l = [] <-> Forall (fun y => p y = false) l.
Proof.
  induction l as [|a l IH]; cbn [List.filter].
  - split; [constructor | reflexivity].
  - destruct (p a) eqn:Ha; split.
    + discriminate.
    + intros H. apply Forall_inv in H. congruence.
    + intros H. constructor; [exact Ha | now apply IH].
    + intros H. apply Forall_inv_tail in H. now apply IH.
Qed.

Lemma last_filter_None {A : Type} (p : A -> bool) (l : list A) :
  last (List.filter p l) = None <-> Forall (fun y => p y = false) l.
Proof. rewrite last_None. apply filter_nil_iff. Qed.

Lemma last_filter_app {A : Type} (p : A -> bool) before x after :
  p x = true ->
  Forall (fun y => p y = false) after ->
  last (List.filter p (before ++ x :: after)) = Some x.
Proof.
  intros Hx Hafter. rewrite List.filter_app. cbn [List.filter]. rewrite Hx.
  apply filter_nil_iff in Hafter. rewrite Hafter. apply last_snoc.
Qed.

Lemma last_filter_Some {A : Type} (p : A -> bool) (l : list A) x :
  last (List.filter p l) = Some x <->
  exists before after,
    l = (before ++ x :: after)%list
    /\ p x = true
    /\ Forall (fun y => p y = false) after.
Proof.
  split.
  - induction l as [|y l IH] using rev_ind; [discriminate|].
    rewrite List.filter_app. cbn [List.filter].
    destruct (p y) eqn:Hy.
    + rewrite last_snoc. intros [= ->].
      exists l, []. repeat split; [exact Hy | constructor].
    + rewrite app_nil_r. intros Hlast.
      destruct (IH Hlast) as (before & after & -> & Hx & Hafter).
      exists before, (after ++ [y])%list. split; [|split].
      * now rewrite <- app_assoc.
      * exact Hx.
      * apply Forall_app. split; [exact Hafter | now constructor].
  - intros (before & after & -> & Hx & Hafter).
    now apply last_filter_app.
Qed.

(** X15: [showUserInput] takes, among the configured inputs, the last one
    whose [id] is the variable: inputs before it, with the same [id] or
    not, are not looked at; and it finds none exactly when no input has
    that [id]. *)
Theorem info_of_is_the_last_input_of_that_id {any : Type} (variable : string)
    (inputInfos : list (ConfiguredInput any)) :
  (forall info,
     info_of variable inputInfos = Some info <->
     exists before after,
       inputInfos = (before ++ info :: after)%list
       /\ id info = variable
       /\ Forall (fun item => id item <> variable) after)
  /\ (info_of variable inputInfos = None <->
      Forall (fun item => id item <> variable) inputInfos).
Proof.
  unfold info_of. split.
  - intros info. rewrite last_filter_Some.
    split; intros (before & after & Hlist & Hid & Hafter);
      exists before, after; (split; [exact Hlist|]).
    + apply String.eqb_eq in Hid. split; [exact Hid|].
      eapply Forall_impl; [exact Hafter|].
      intros item Hitem. now apply String.eqb_neq.
    + split; [now apply String.eqb_eq|].
      eapply Forall_impl; [exact Hafter|].
      intros item Hitem. now apply String.eqb_neq.
  - rewrite last_filter_None. split; intros H;
      (eapply Forall_impl; [exact H|]); intros item Hitem;
      now apply String.eqb_neq.
Qed.

(** X16: [getFolderUri] gives the [uri] of the last folder of the
    workspace that has the name, also when several folders have it, and
    [undefined] exactly when no folder has the name, which is so in a
    workspace without folders. *)
Theorem getFolderUri_is_the_last_folder_of_that_name
    (folders : list IWorkspaceFolderData) (folderName : string) :
  (forall folderUri,
     getFolderUri folders folderName = Some folderUri <->
     exists before folder after,
       folders = (before ++ folder :: after)%list
       /\ folder_name folder = folderName
       /\ uri folder = folderUri
       /\ Forall (fun f => folder_name f <> folderName) after)
  /\ (getFolderUri folders folderName = None <->
      Forall (fun f => folder_name f <> folderName) folders)
  /\ (getWorkspaceFolderCount folders = 0 ->
      getFolderUri folders folderName = None).
Proof.
  unfold getFolderUri, getWorkspaceFolderCount.
  set (p := fun f => String.eqb (folder_name f) folderName).
  assert (Hnone : last (List.filter p folders) = None <->
                  Forall (fun f => folder_name f <> folderName) folders).
  { rewrite last_filter_None. split; intros H;
      (eapply Forall_impl; [exact H|]); intros f Hf;
      now apply String.eqb_neq. }
  split; [|split].
  - intros folderUri. split.
    + destruct (last (List.filter p folders)) as [folder|] eqn:Hlast;
        [|discriminate].
      intros [= <-].
      apply last_filter_Some in Hlast as (before & after & -> & Hname & Hafter).
      exists before, folder, after. repeat split.
      * now apply String.eqb_eq.
      * eapply Forall_impl; [exact Hafter|].
        intros f Hf. now apply String.eqb_neq.
    + intros (before & folder & after & -> & Hname & <- & Hafter).
      rewrite (last_filter_app p before folder after); [reflexivity| |].
      * now apply String.eqb_eq.
      * eapply Forall_impl; [exact Hafter|].
        intros f Hf. now apply String.eqb_neq.
  - destruct (last (List.filter p folders)) as [folder|] eqn:Hlast.
    + split; [discriminate|]. intros H. apply Hnone in H. discriminate H.
    + split; [intros _; now apply Hnone | reflexivity].
  - intros Hcount. destruct folders; [reflexivity | discriminate Hcount].
Qed.

(** *** The active editor *)

(** X17: [getLineNumber] and [getColumnNumber] are defined together, and
    only for a code editor with a selection.  In a diff editor both are
    [undefined], although [getSelectedText] gives there the text of the
    original editor when it has the focus and of the modified editor
    otherwise; and in a code editor, where there is a selected text there
    is a line and a column. *)
Theorem line_and_column_need_a_code_editor (control : EditorControl) :
  (getLineNumber control = None <-> getColumnNumber control = None)
  /\ (forall line,
        getLineNumber control = Some line ->
        exists editor selection,
          control = CodeEditor editor
          /\ getSelection editor = Some selection
          /\ line = String_ (positionLineNumber selection)
          /\ getColumnNumber control
             = Some (String_ (positionColumn selection)))
  /\ (forall original modified,
        control = DiffEditor original modified ->
        getLineNumber control = None
        /\ getColumnNumber control = None
        /\ getSelectedText control
           = getSelectedText
               (CodeEditor (if hasWidgetFocus original then original
                            else modified)))
  /\ (forall editor text,
        control = CodeEditor editor ->
        getSelectedText control = Some text ->
        exists line column,
          getLineNumber control = Some line
          /\ getColumnNumber control = Some column).
Proof.
  split; [|split; [|split]].
  - destruct control as [editor| |]; cbn; [|tauto|tauto].
    destruct (getSelection editor); split; intros H; congruence.
  - intros line. destruct control as [editor| |]; cbn; try discriminate.
    destruct (getSelection editor) as [selection|] eqn:Hselection;
      [|discriminate].
    intros [= <-]. exists editor, selection. cbn. rewrite Hselection.
    repeat split.
  - intros original modified ->. split; [|split]; reflexivity.
  - intros editor text ->. unfold getSelectedText. cbn.
    destruct (getModel editor), (getSelection editor); try discriminate.
    intros _. eexists _, _. split; reflexivity.
Qed.

End ContextFacts.

(** ** [McpCollectionDefinition] *)

Module McpCollectionDefinitionSpec.
Import McpCollectionDefinition.

Section Facts.

Context {ServerDefinitions Number : Type}.

Local Abbreviation t := (McpCollectionDefinition.t ServerDefinitions Number).

Lemma strict_eqb_eq (a b : option string) :
  ConfigurationResolver.strict_eqb a b = true <-> a = b.
Proof.
  destruct a as [x|], b as [y|]; cbn; try (split; congruence).
  rewrite String.eqb_eq. split; congruence.
Qed.

Lemma equals_true (a b : t) :
  equals a b = true <->
  id a = id b /\ remoteAuthority a = remoteAuthority b
  /\ label a = label b /\ isTrustedByDefault a = isTrustedByDefault b.
Proof.
  unfold equals. rewrite !andb_true_iff, !String.eqb_eq, strict_eqb_eq.
  rewrite Bool.eqb_true_iff. tauto.
Qed.

(** X18: [equals] is an equivalence on collection definitions: every
    definition equals itself, the order of the arguments does not matter,
    and two definitions that equal a third equal each other. *)
Theorem equals_is_an_equivalence :
  (forall a : t, equals a a = true)
  /\ (forall a b : t, equals a b = equals b a)
  /\ (forall a b c : t,
        equals a b = true -> equals b c = true -> equals a c = true).
Proof.
  split; [|split].
  - intros a. apply equals_true. auto.
  - intros a b. apply eq_true_iff_eq. rewrite !equals_true.
    split; intros (H1 & H2 & H3 & H4); auto.
  - intros a b c. rewrite !equals_true.
    intros (H1 & H2 & H3 & H4) (H5 & H6 & H7 & H8).
    repeat split; congruence.
Qed.

(** X19: [equals] compares the [id], the [remoteAuthority], the [label]
    and [isTrustedByDefault], and nothing else: a definition equals the
    one that differs from it in its [serverDefinitions], its [scope] and
    its [order] only, and replacing these in one argument does not change
    the answer. *)
Theorem equals_ignores_servers_scope_and_order (a b : t)
    (servers : ServerDefinitions) (scope' : ConfigurationResolver.StorageScope)
    (order' : option Number) :
  let b' :=
    {| remoteAuthority := remoteAuthority b; id := id b; label := label b;
       serverDefinitions := servers;
       isTrustedByDefault := isTrustedByDefault b;
       scope := scope'; order := order' |} in
  equals a b' = equals a b
  /\ equals b b' = true
  /\ (equals a b = true <->
      id a = id b /\ remoteAuthority a = remoteAuthority b
      /\ label a = label b /\ isTrustedByDefault a = isTrustedByDefault b).
Proof.
  intros b'. split; [reflexivity|]. split; [|apply equals_true].
  apply equals_true. cbn. auto.
Qed.

End Facts.

End McpCollectionDefinitionSpec.

(** ** [McpConnectionState.toString] *)

Module McpConnectionStateMore.
Import McpConnectionState.

Lemma toString_eq (s : t) :
  toString s =
  Some (match s with
        | StoppedState => "Stopped"
        | StartingState => "Starting"
        | RunningState => "Running"
        | ErrorState message => "Error " ++ message
        end).
Proof.
  destruct s as [| | |message]; try reflexivity.
  cbv -[String.append]. rewrite McpConnectionStateSpec.append_empty.
  reflexivity.
Qed.

(** X20: [toString] tells the states apart: two states with the same
    text are the same state, with the same message when they are
    errors. *)
Theorem toString_is_injective (s1 s2 : t) :
  toString s1 = toString s2 -> s1 = s2.
Proof.
  rewrite !toString_eq. intros [= H].
  destruct s1 as [| | |m1], s2 as [| | |m2]; cbv in H;
    try reflexivity; try discriminate H.
  injection H as ->. reflexivity.
Qed.

End McpConnectionStateMore.

(** ** More of the class at work *)

Module MoreExamples.
Import ConfigurationResolver Examples MoreFixtures.

(** The default [green] is the second option and the first pick. *)
Lemma green_is_marked_and_first :
  exists item rest,
    fold_left (addPick color_with_default None) color_options []
    = item :: rest
    /\ item_value item = "green"
    /\ item_description item = Some "(Default)".
Proof.
  refine (ResolverMore.default_is_the_first_pick
            color_with_default None color_options "green" _ _ _).
  - reflexivity.
  - discriminate.
  - right. left. reflexivity.
Defined.

(** Without default, the value picked last time is the first pick. *)
Lemma green_was_picked_and_is_first :
  exists item rest,
    fold_left (addPick color (Some "green")) color_options []
    = item :: rest
    /\ item_value item = "green"
    /\ item_description item = None.
Proof.
  refine (ResolverMore.last_picked_is_the_first_pick
            color color_options "green" _ _).
  - reflexivity.
  - right. left. reflexivity.
Defined.

(** The value picked last time is no option any more. *)
Lemma blue_is_no_option :
  List.map item_value
    (fold_left (addPick color (Some "blue")) color_options [])
  = ["red"; "green"].
Proof.
  refine (proj1 (ResolverMore.picks_keep_the_order
                   color (Some "blue") color_options _)).
  repeat (constructor; [split; [reflexivity | right; reflexivity]|]).
  constructor.
Defined.

(** The user picks [green] at the quick pick of [color]. *)
Lemma green_is_picked_and_stored :
  run (host [color] [Some "green"])
      (showUserInput "tasks" "color" (Some [color])) fresh
  = (Ok (JsString "green"),
     {| storage := storage_store empty_storage LAST_INPUT_STORAGE_KEY
                     (Json.stringify [("tasks.color", "green")]) WORKSPACE;
        log := [ logged (StorageGet LAST_INPUT_STORAGE_KEY WORKSPACE);
                 logged (Queue_queue
                           (QuickPick
                              (fold_left (addPick color None) color_options [])
                              pick_options));
                 logged (StorageStore LAST_INPUT_STORAGE_KEY
                           (Json.stringify [("tasks.color", "green")])
                           WORKSPACE MACHINE) ] |}).
Proof.
  refine (proj1
    (ResolverMore.pickString_pick_and_write_back
       Json.stringify Json.parse (host [color] [Some "green"])
       "tasks" "color" [color] color color_options fresh
       (LRUCache.new LAST_INPUT_CACHE_SIZE)
       {| storage := empty_storage;
          log := [logged (StorageGet LAST_INPUT_STORAGE_KEY WORKSPACE)] |}
       _ _ _ _ _ _)).
  - reflexivity.
  - reflexivity.
  - reflexivity.
  - reflexivity.
  - reflexivity.
  - vm_compute. reflexivity.
Defined.

(** The input [file] runs its command with its [args]. *)
Lemma file_runs_its_command :
  exists message : string,
    run (host [file] [Some "a.ts"])
        (showUserInput "tasks" "file" (Some [file])) fresh
    = (Ok (JsString "a.ts"),
       {| storage := empty_storage;
          log := [ logged (StorageGet LAST_INPUT_STORAGE_KEY WORKSPACE);
                   logged (Queue_queue
                             (ExecuteCommand "extension.pickFile" "*.ts")) ]
       |}).
Proof.
  refine (ResolverMore.command_input_executes_its_command
            Json.stringify Json.parse (host [file] [Some "a.ts"])
            "tasks" "file" [file] file "extension.pickFile" fresh _ _ _).
  - reflexivity.
  - reflexivity.
  - reflexivity.
Defined.

(** The variable [${command:pickFile}] runs the command that the map
    gives for [pickFile]. *)
Lemma pickFile_runs_the_mapped_command :
  exists message : string,
    run (host [] [Some "a.ts"])
        (resolveVariable Json.stringify Json.parse None three_variables
           (Some "tasks") (Some {["pickFile" := "extension.pickFile"]}) None
           pickFile) fresh
    = (Ok (JsString "a.ts"),
       {| storage := empty_storage;
          log := [ logged (ExecuteCommand "extension.pickFile"
                             three_variables) ] |}).
Proof.
  refine (ResolverMore.command_variable_executes_the_mapped_command
            Json.stringify Json.parse (host [] [Some "a.ts"])
            None three_variables (Some "tasks")
            (Some {["pickFile" := "extension.pickFile"]}) None pickFile
            fresh _).
  reflexivity.
Defined.

(** A name that the map has not as entry of its own, but inherits from
    [Object.prototype]: the inherited member is taken for the command.
    An entry of its own, or no map, gives a string. *)
Example inherited_member_is_taken_for_the_command :
  commandId_of (Some {["pickFile" := "extension.pickFile"]}) "toString"
  = InheritedMember "toString"
  /\ commandId_of (Some {["toString" := "extension.toString"]}) "toString"
     = CommandName "extension.toString"
  /\ commandId_of None "toString" = CommandName "toString".
Proof. vm_compute. repeat split; reflexivity. Qed.

(** A command that resolves to [null] does not cancel. *)
Lemma null_is_resolved :
  run null_host
      (resolveVariables Json.stringify Json.parse None three_variables
         (Some "tasks") None None [pickFile] ∅) fresh
  = (Ok (Some (<["command:pickFile" := JsNull]> ∅)),
     {| storage := empty_storage;
        log := [ logged (ExecuteCommand "pickFile" three_variables) ] |}).
Proof.
  refine (ResolverMore.null_is_a_value_not_a_cancellation
            Json.stringify Json.parse null_host None three_variables
            (Some "tasks") None None pickFile [] ∅ fresh _ _).
  - reflexivity.
  - reflexivity.
Defined.

(** The three variables of the example, all answered. *)
Lemma three_variables_give_three_keys :
  dom all_resolved
  = list_to_set ["input:who"; "command:pickFile"; "input:color"]
  /\ size all_resolved <= 3.
Proof.
  pose (w' :=
    snd (run answering_host
           (resolveWithInteraction Examples.unresolved Json.stringify
              Json.parse None three_variables (Some "tasks") None None)
           fresh)).
  refine ((fun H => conj (proj1 H) (proj1 (proj2 (proj2 H))))
    (ResolverMore.resolved_map_has_the_keys_of_the_variables
       Examples.unresolved Json.stringify Json.parse answering_host
       None three_variables (Some "tasks") None None fresh all_resolved w'
       _)).
  vm_compute. reflexivity.
Defined.

(** Variables of other kinds are left to [resolveAnyAsync]. *)
Lemma env_and_config_need_no_interaction :
  run cancelling_host
      (resolveWithInteraction unresolved Json.stringify Json.parse None
         no_interaction (Some "tasks") None None) fresh
  = (Ok (Some ∅), fresh).
Proof.
  refine (ResolverMore.other_variables_are_not_prompted_for
            unresolved Json.stringify Json.parse cancelling_host
            None no_interaction (Some "tasks") None None fresh _).
  repeat constructor; discriminate.
Defined.

(** The input [who] is in the user settings, and no target is given. *)
Lemma user_inputs_are_not_found :
  run user_settings_host (resolveInputs None (Some "tasks") None) fresh
  = (Ok None,
     {| storage := empty_storage;
        log := [ logged GetWorkbenchState;
                 logged (Inspect "tasks" None) ] |}).
Proof.
  refine (proj1
    (ResolverMore.user_inputs_need_the_user_target
       Json.stringify Json.parse user_settings_host None three_variables
       (Some "tasks") None
       {| var_name := "input"; var_type := "input"; var_arg := "who" |}
       fresh user_settings {| inputs := Some [who None] |} _ _ _ _ _ _)).
  - reflexivity.
  - discriminate.
  - reflexivity.
  - reflexivity.
  - reflexivity.
  - reflexivity.
Defined.

(** Two error states with the same text have the same message. *)
Lemma same_text_same_error :
  McpConnectionState.ErrorState "timed out"
  = McpConnectionState.ErrorState "timed out".
Proof.
  refine (McpConnectionStateMore.toString_is_injective
            (McpConnectionState.ErrorState "timed out")
            (McpConnectionState.ErrorState "timed out") _).
  reflexivity.
Defined.

End MoreExamples.
